(** * optidex, v2: coordinate exchange, Bayesian refinement and basis functions

    A shallow embedding of [src/v2/basis.py],
    [src/v2/cordex_continuous_parallel.py] and [src/v2/bayesian_opt.py].

    - Python [float]/numpy [float64] values are IEEE-754 binary64 numbers,
      taken from the Standard Library's executable specification
      ([SpecFloat]); [np.inf], [np.nan], comparison, negation and [np.abs]
      are therefore exact.
    - numpy arrays and torch tensors of rank two are row-major lists of
      rows.  An array without rows is the empty list: its number of columns
      is not kept, and where that matters a statement asks for a design with
      at least one run.
    - Python exceptions are values of [exn]; a computation either returns
      or raises ([outcome]).
    - Closures that share the variables of an enclosing function
      ([objective], [check], [run_epoch]) run in a state monad over the
      enclosing frame, with the name resolution Python performs: a name
      assigned in a function body is local to that function unless it is
      declared otherwise.
    - Library routines whose code is not part of the repository
      ([numpy.linalg], [scipy.optimize.minimize], the random and discrete
      start designs, the surrogate model) are interfaces (type classes);
      the module [Reference] implements each of them once.
    - In [basis.py], [fourier] is evaluated in binary64; [np.sin] and
      [np.cos] are an interface ([Libm]) with the values that IEEE 754
      fixes for the sine at zero and at nan.  [indicator] only compares its
      arguments, and the comparisons are exact: they are read as
      comparisons of reals. *)

From Stdlib Require Import String ZArith List Bool Lia.
From Stdlib Require Import Floats.SpecFloat.
From Stdlib Require Import Reals Lra.
Import ListNotations.

Set Implicit Arguments.

(* ================================================================== *)
(** * Python outcomes *)

(** The [ValueError]s the repository raises on purpose. *)
Inductive config_error : Type :=
| InvalidMethod        (* "Invalid method ..." *)
| NotEstimable         (* "Design not Estimable." *)
| InvalidCriterion     (* "Invalid criterion ..." *)
| InvalidAcquisition.  (* "Invalid acquisition function ..." *)

Inductive exn : Type :=
| ValueError (c : config_error)
| OperandError   (* numpy/torch refusing operands: wrong shape, None operand, negative dimension *)
| TypeError
| NameError
| AttributeError
| IndexError
| SurrogateError (* anything raised inside the surrogate fit or the acquisition optimiser *)
| Deadlock       (* a second acquire of a lock that is not re-entrant never returns *)
| OverflowError. (* a Python int too large to convert to float *)

Inductive outcome (A : Type) : Type :=
| Ret (a : A)
| Raise (e : exn).
Arguments Ret {A} a.
Arguments Raise {A} e.

Definition is_raise {A} (o : outcome A) : bool :=
  match o with Ret _ => false | Raise _ => true end.

(* ================================================================== *)
(** * numpy: float64 scalars and rank-two arrays *)

Module NP.

Definition float64 : Type := spec_float.

Definition prec : Z := 53.
Definition emax : Z := 1024.

Definition fadd : float64 -> float64 -> float64 := SFadd prec emax.
Definition fmul : float64 -> float64 -> float64 := SFmul prec emax.
Definition fdiv : float64 -> float64 -> float64 := SFdiv prec emax.
Definition fsqrt : float64 -> float64 := SFsqrt prec emax.
Definition fneg : float64 -> float64 := SFopp.
Definition fabs : float64 -> float64 := SFabs.
Definition flt  : float64 -> float64 -> bool := SFltb.
Definition fle  : float64 -> float64 -> bool := SFleb.
Definition feq  : float64 -> float64 -> bool := SFeqb.

Definition of_Z (z : Z) : float64 := binary_normalize prec emax z 0 false.

Definition zero : float64 := S754_zero false.
Definition one  : float64 := SFone prec emax.
Definition inf  : float64 := S754_infinity false.   (* np.inf, np.infty *)
Definition nan  : float64 := S754_nan.              (* np.nan *)
(** [np.pi], the binary64 number nearest to pi: 0x1.921fb54442d18p+1. *)
Definition pi   : float64 := S754_finite false 7074237752028440 (-51).

Definition is_finite (x : float64) : bool :=
  match x with
  | S754_zero _ | S754_finite _ _ _ => true
  | S754_infinity _ | S754_nan => false
  end.

Definition is_zero (x : float64) : bool :=
  match x with S754_zero _ => true | _ => false end.

(** [np.signbit(x)]. *)
Definition signbit (x : float64) : bool :=
  match x with
  | S754_zero s | S754_infinity s | S754_finite s _ _ => s
  | S754_nan => false
  end.

Definition matrix : Type := list (list float64).

Definition nrows (m : matrix) : nat := length m.
Definition ncols (m : matrix) : nat :=
  match m with [] => 0 | r :: _ => length r end.

(** A list of rows is an array when all rows have the same length. *)
Definition rectangular (m : matrix) : bool :=
  forallb (fun r => Nat.eqb (length r) (ncols m)) m.

(** [range(n)] for a Python int [n]. *)
Definition range (n : Z) : list nat := seq 0 (Z.to_nat n).

(** [np.ones((n, 1))]; a negative dimension is refused. *)
Definition ones (n : Z) : outcome matrix :=
  if (n <? 0)%Z then Raise OperandError
  else Ret (repeat [one] (Z.to_nat n)).

(** [np.identity(n)]. *)
Definition identity (n : nat) : matrix :=
  map (fun i => map (fun j => if Nat.eqb i j then one else zero) (seq 0 n))
      (seq 0 n).

(** [m.T]. *)
Definition transpose (m : matrix) : matrix :=
  map (fun j => map (fun r => nth j r zero) m) (seq 0 (ncols m)).

Definition dot (u v : list float64) : float64 :=
  fold_left fadd (map (fun p => fmul (fst p) (snd p)) (combine u v)) zero.

(** [a @ b]; the inner dimensions have to agree.  Each entry is accumulated
    from left to right. *)
Definition matmul (a b : matrix) : outcome matrix :=
  if forallb (fun r => Nat.eqb (length r) (nrows b)) a
  then Ret (map (fun r => map (fun c => dot r c) (transpose b)) a)
  else Raise OperandError.

(** [a + b] with numpy's broadcasting: along each axis the two lengths are
    equal or one of them is 1, and the operand of length 1 is repeated. *)
Definition broadcast (x y : nat) : option nat :=
  if Nat.eqb x y then Some x
  else if Nat.eqb x 1 then Some y
  else if Nat.eqb y 1 then Some x
  else None.

Definition stretched (a : matrix) (i j : nat) : float64 :=
  nth (if Nat.eqb (ncols a) 1 then 0 else j)
      (nth (if Nat.eqb (nrows a) 1 then 0 else i) a []) zero.

Definition madd (a b : matrix) : outcome matrix :=
  match broadcast (nrows a) (nrows b), broadcast (ncols a) (ncols b) with
  | Some r, Some c =>
      Ret (map (fun i => map (fun j => fadd (stretched a i j) (stretched b i j))
                             (seq 0 c))
               (seq 0 r))
  | _, _ => Raise OperandError
  end.

(** [s * a] for a scalar [s]. *)
Definition smul (s : float64) (a : matrix) : matrix :=
  map (map (fmul s)) a.

(** [np.concatenate((a, b), axis=1)]. *)
Definition hcat (a b : matrix) : outcome matrix :=
  if Nat.eqb (nrows a) (nrows b)
  then Ret (map (fun p => fst p ++ snd p) (combine a b))
  else Raise OperandError.

(** [np.trace(a)]. *)
Definition trace (a : matrix) : float64 :=
  fold_left fadd (map (fun i => nth i (nth i a []) zero)
                      (seq 0 (Nat.min (nrows a) (ncols a)))) zero.

(** Column slices [m[:, :k]] and [m[:, k:]] for a Python int [k]; a negative
    bound counts from the end. *)
Definition cut (k : Z) (n : nat) : nat :=
  if (k <? 0)%Z then n - Z.to_nat (- k) else Z.to_nat k.
Definition cols_to (k : Z) (m : matrix) : matrix :=
  map (fun r => firstn (cut k (length r)) r) m.
Definition cols_from (k : Z) (m : matrix) : matrix :=
  map (fun r => skipn (cut k (length r)) r) m.

(** [m[i, j]] and [m[i, j] = x] for indices that come from [range]. *)
Definition get (m : matrix) (i j : nat) : option float64 :=
  match nth_error m i with
  | Some r => nth_error r j
  | None => None
  end.

Fixpoint set_nth {A} (l : list A) (i : nat) (x : A) : list A :=
  match l, i with
  | [], _ => []
  | _ :: t, O => x :: t
  | h :: t, S k => h :: set_nth t k x
  end.

Definition set (m : matrix) (i j : nat) (x : float64) : option matrix :=
  match nth_error m i with
  | Some r => if Nat.ltb j (length r) then Some (set_nth m i (set_nth r j x))
              else None
  | None => None
  end.

(** [m.flatten()]. *)
Definition flatten (m : matrix) : list float64 := concat m.

Fixpoint chunks (c : nat) (v : list float64) (r : nat) : matrix :=
  match r with
  | O => []
  | S k => firstn c v :: chunks c (skipn c v) k
  end.

(** [v.reshape(r, c)].  One dimension may be left to be inferred from the
    other: numpy takes every negative dimension as the one to infer, torch
    only [-1]; two dimensions to infer, any other negative dimension and a
    size that does not fit are refused. *)
Inductive library : Type := Numpy | Torch.

Definition inferred (lib : library) (d : Z) : bool :=
  match lib with
  | Numpy => (d <? 0)%Z
  | Torch => (d =? -1)%Z
  end.

Definition reshape_dims (lib : library) (n r c : Z) : option (Z * Z) :=
  if inferred lib r then
    if ((c <=? 0) || negb (n mod c =? 0))%Z then None else Some ((n / c)%Z, c)
  else if inferred lib c then
    if ((r <=? 0) || negb (n mod r =? 0))%Z then None else Some (r, (n / r)%Z)
  else if ((r <? 0) || (c <? 0))%Z then None
  else if (n =? r * c)%Z then Some (r, c) else None.

Definition reshape_in (lib : library) (m : matrix) (r c : Z) : outcome matrix :=
  match reshape_dims lib (Z.of_nat (length (flatten m))) r c with
  | Some (r', c') => Ret (chunks (Z.to_nat c') (flatten m) (Z.to_nat r'))
  | None => Raise OperandError
  end.

(** [a.reshape(r, c)] of a numpy array and [t.reshape(r, c)] of a tensor. *)
Definition reshape : matrix -> Z -> Z -> outcome matrix := reshape_in Numpy.
Definition tensor_reshape : matrix -> Z -> Z -> outcome matrix :=
  reshape_in Torch.

(** [torch.Tensor(a)] and [a.numpy()] keep single precision: the value is
    rounded to binary32 (24 bits, exponents up to 128) and, being a binary64
    number as well, written again in the binary64 format. *)
Definition to_float32 (x : float64) : float64 :=
  match x with
  | S754_finite s m e =>
      match binary_normalize 24 128 (cond_Zopp s (Zpos m)) e s with
      | S754_finite s' m' e' =>
          binary_normalize prec emax (cond_Zopp s' (Zpos m')) e' s'
      | y => y
      end
  | _ => x
  end.

Definition is_nan (x : float64) : bool :=
  match x with S754_nan => true | _ => false end.

(** [np.max], [np.min], [tensor.max()]: nan wins; an empty array is
    refused. *)
Definition fmax (a b : float64) : float64 :=
  if is_nan a then a else if is_nan b then b else if flt a b then b else a.
Definition fmin (a b : float64) : float64 :=
  if is_nan a then a else if is_nan b then b else if flt b a then b else a.
Definition amax (l : list float64) : outcome float64 :=
  match l with [] => Raise OperandError | x :: t => Ret (fold_left fmax t x) end.
Definition amin (l : list float64) : outcome float64 :=
  match l with [] => Raise OperandError | x :: t => Ret (fold_left fmin t x) end.

End NP.

(* ================================================================== *)
(** * basis.py *)

Module Basis.

(** [np.sin] and [np.cos] on binary64 numbers.  The routines are not part
    of the repository; what is used of them is what IEEE 754 fixes: the
    sine of a zero is that zero, and a nan argument gives nan. *)
Class Libm : Type := {
  np_sin : NP.float64 -> NP.float64;
  np_cos : NP.float64 -> NP.float64;
  sin_of_zero : forall s, np_sin (S754_zero s) = S754_zero s;
  sin_of_nan : np_sin NP.nan = NP.nan
}.

(** The conversion of a Python int in [int * float]: the nearest binary64
    number, or [OverflowError] when there is none. *)
Definition int_to_float (p : Z) : outcome NP.float64 :=
  if NP.is_finite (NP.of_Z p) then Ret (NP.of_Z p) else Raise OverflowError.

(** [fourier(t, p)] for a float [t] and an int [p]; [p * np.pi * t] is
    [(p * np.pi) * t]. *)
Definition fourier {LM : Libm} (t : NP.float64) (p : Z) : outcome NP.float64 :=
  if (p =? 0)%Z then Ret (NP.fsqrt (NP.fdiv NP.one (NP.of_Z 2)))
  else if (p mod 2 =? 0)%Z then
    match int_to_float p with
    | Ret q => Ret (np_cos (NP.fmul (NP.fmul q NP.pi) t))
    | Raise e => Raise e
    end
  else
    match int_to_float (p - 1) with
    | Ret q => Ret (np_sin (NP.fmul (NP.fmul q NP.pi) t))
    | Raise e => Raise e
    end.

Local Open Scope R_scope.

(** Comparisons of Python floats, read as comparisons of reals. *)
Definition Rleb (x y : R) : bool := if Rle_dec x y then true else false.
Definition Rltb (x y : R) : bool := if Rlt_dec x y then true else false.
Definition Reqb (x y : R) : bool := if Req_dec_T x y then true else false.

(** [indicator(t, l, u)]: [t == u == 1] is the chain [t == u and u == 1];
    [|] and [&] combine the truth values. *)
Definition indicator (t l u : R) : Z :=
  if (Reqb t u && Reqb u 1) || (Rleb l t && Rltb t u) then 1%Z else 0%Z.

End Basis.

(* ================================================================== *)
(** * External collaborators *)

Import NP.

(** [numpy.linalg]: [None] stands for [numpy.linalg.LinAlgError]. *)
Class Linalg : Type := {
  linalg_inv     : matrix -> option matrix;
  linalg_det     : matrix -> option float64;
  linalg_eigvals : matrix -> option (list float64)
}.

(** The two ways of obtaining a starting design.  Both draw random numbers;
    the first argument counts the draws made so far. *)
Class StartDesign : Type := {
  gen_rand_design_m : nat -> Z -> list Z -> Z -> outcome (matrix * matrix);
  cordex_discrete   : nat -> Z -> list Z -> Z -> string -> option matrix ->
                      outcome (matrix * float64)
}.

(** [scipy.optimize.minimize] on one bounded coordinate.  The routine is a
    strategy: from the start point and the evaluations made so far it either
    asks for the objective at one more point or stops with [res.x].  It
    always evaluates the objective at a first trial point, and it never
    makes more than [maxfun] further evaluations. *)
Inductive opt_step : Type :=
| Query (x : float64)
| Stop (res_x : option float64).

Class Minimizer : Type := {
  first_trial : string -> float64 -> float64;
  next_step   : string -> float64 -> list (float64 * float64) -> opt_step;
  maxfun      : nat;
  out_of_budget : string -> float64 -> list (float64 * float64) -> option float64
}.

(* ================================================================== *)
(** * cordex_continuous_parallel.py *)

Module Cordex.

(** The arguments of [cordex_continuous].  [num_processes] is [None]: the
    epochs are scheduled by the sequential loop of lines 147-149; the
    progress-bar switches do not affect the result. *)
Record config : Type := {
  runs : Z;
  f_list : list Z;
  scalars : Z;
  optimality : string;
  J_cb : option matrix;
  R_0 : option matrix;
  smooth_pen : float64;
  ridge_pen : float64;
  epochs : Z;
  method : string;
  random_start : bool;
  final_pass : bool;
  final_pass_iter : Z
}.

(** Search work, recorded for the statements about what happens before an
    error; the record does not influence the computation. *)
Inductive event : Type :=
| EvStartDesign
| EvMinimize (run feat : nat)
| EvCriterion (x : float64).

(** [Best_des] holds [None] or the array object that [Model_mat] names:
    line 168 stores the object itself, not a copy of it. *)
Inductive design_ref : Type :=
| RefNone
| RefModelMat.

(** The variables of [cordex_continuous] that its closures share. *)
Record frame : Type := {
  Model_mat : option matrix;   (* [None]: the variable holds Python's None *)
  run  : option nat;           (* [None]: not assigned yet *)
  feat : option nat;           (* [None]: not assigned yet *)
  Best_des : design_ref;
  Best_obj : float64;
  lock_held : bool;
  draws : nat;
  log : list event
}.

Definition with_Model_mat (m : option matrix) (fr : frame) : frame :=
  {| Model_mat := m; run := run fr; feat := feat fr; Best_des := Best_des fr;
     Best_obj := Best_obj fr; lock_held := lock_held fr; draws := draws fr;
     log := log fr |}.
Definition with_run (r : option nat) (fr : frame) : frame :=
  {| Model_mat := Model_mat fr; run := r; feat := feat fr;
     Best_des := Best_des fr; Best_obj := Best_obj fr;
     lock_held := lock_held fr; draws := draws fr; log := log fr |}.
Definition with_feat (f : option nat) (fr : frame) : frame :=
  {| Model_mat := Model_mat fr; run := run fr; feat := f;
     Best_des := Best_des fr; Best_obj := Best_obj fr;
     lock_held := lock_held fr; draws := draws fr; log := log fr |}.
Definition with_Best (d : design_ref) (o : float64) (fr : frame) : frame :=
  {| Model_mat := Model_mat fr; run := run fr; feat := feat fr;
     Best_des := d; Best_obj := o;
     lock_held := lock_held fr; draws := draws fr; log := log fr |}.
Definition with_lock (b : bool) (fr : frame) : frame :=
  {| Model_mat := Model_mat fr; run := run fr; feat := feat fr;
     Best_des := Best_des fr; Best_obj := Best_obj fr;
     lock_held := b; draws := draws fr; log := log fr |}.
Definition with_draw (fr : frame) : frame :=
  {| Model_mat := Model_mat fr; run := run fr; feat := feat fr;
     Best_des := Best_des fr; Best_obj := Best_obj fr;
     lock_held := lock_held fr; draws := S (draws fr); log := log fr |}.
Definition with_event (e : event) (fr : frame) : frame :=
  {| Model_mat := Model_mat fr; run := run fr; feat := feat fr;
     Best_des := Best_des fr; Best_obj := Best_obj fr;
     lock_held := lock_held fr; draws := draws fr; log := log fr ++ [e] |}.

(** ** Computations over the frame *)

Definition M (A : Type) : Type := frame -> outcome A * frame.

Definition ret {A} (a : A) : M A := fun fr => (Ret a, fr).
Definition raise {A} (e : exn) : M A := fun fr => (Raise e, fr).
Definition bind {A B} (c : M A) (k : A -> M B) : M B :=
  fun fr => match c fr with
            | (Ret a, fr') => k a fr'
            | (Raise e, fr') => (Raise e, fr')
            end.
Definition lift {A} (o : outcome A) : M A := fun fr => (o, fr).
Definition read {A} (f : frame -> A) : M A := fun fr => (Ret (f fr), fr).
Definition update (f : frame -> frame) : M unit := fun fr => (Ret tt, f fr).

(** [try: c finally: update h]. *)
Definition finally {A} (c : M A) (h : frame -> frame) : M A :=
  fun fr => let (o, fr') := c fr in (o, h fr').

Declare Scope py_scope.
Delimit Scope py_scope with py.
Notation "x <- c ;; k" := (bind c (fun x => k))
  (at level 61, c at next level, right associativity) : py_scope.
Notation "c ;;; k" := (bind c (fun _ => k))
  (at level 61, right associativity) : py_scope.
Local Open Scope py_scope.

(** [for x in xs: body x]. *)
Fixpoint for_each {A} (xs : list A) (body : A -> M unit) : M unit :=
  match xs with
  | [] => ret tt
  | x :: rest => body x ;;; for_each rest body
  end.

(** The same loop threading a value that the body rebinds. *)
Fixpoint for_fold {A S} (xs : list A) (body : A -> S -> M S) (s : S) : M S :=
  match xs with
  | [] => ret s
  | x :: rest => s' <- body x s ;; for_fold rest body s'
  end.

(** Pure steps of a computation that can raise. *)
Definition obind {A B} (o : outcome A) (k : A -> outcome B) : outcome B :=
  match o with Ret a => k a | Raise e => Raise e end.

(** ** Lines 134-145: the configuration *)

Definition valid_methods : list string :=
  ["Nelder-Mead"; "Powell"; "TNC"; "L-BFGS-B"]%string.

Definition mem_string (s : string) (l : list string) : bool :=
  existsb (String.eqb s) l.

Definition sum_Z (l : list Z) : Z := fold_left Z.add l 0%Z.
Definition len_Z {A} (l : list A) : Z := Z.of_nat (length l).

Definition f_coeffs (c : config) : Z := (sum_Z (f_list c) + 1)%Z.

(** ** Lines 53-103: [objective] *)

Section Objective.
Context {LA : Linalg}.
Variable c : config.

(** Lines 68-71: the regressor matrix and the information matrix of a
    design.  [ones] was built at line 144 from [runs]. *)
Definition Zetta_of (Model : matrix) : outcome matrix :=
  let Gamma := cols_to (f_coeffs c) Model in
  let X := cols_from (f_coeffs c) Model in
  match J_cb c with
  | None => Raise OperandError
  | Some J =>
      obind (matmul Gamma J) (fun GJ =>
      obind (hcat (repeat [one] (Z.to_nat (runs c))) GJ) (fun Z1 =>
      hcat Z1 X))
  end.

Definition Mu_of (Model : matrix) : outcome matrix :=
  obind (Zetta_of Model) (fun Zetta => matmul (transpose Zetta) Zetta).

(** Lines 73-81. *)
Definition P_of (Mu : matrix) : outcome matrix :=
  let n := nrows Mu in
  match R_0 c with
  | None =>
      if feq (ridge_pen c) zero then Ret (identity n)
      else madd Mu (smul (ridge_pen c) (identity n))
  | Some R =>
      if feq (ridge_pen c) zero then madd Mu (smul (smooth_pen c) R)
      else obind (madd Mu (smul (smooth_pen c) R)) (fun S =>
           madd S (smul (ridge_pen c) (identity n)))
  end.

(** Lines 82-103, given the information matrix. *)
Definition criterion_of (Mu : matrix) : outcome float64 :=
  obind (P_of Mu) (fun P =>
  match linalg_inv P with
  | None => Ret nan
  | Some P_inv =>
      obind (matmul P_inv Mu) (fun PM =>
      obind (matmul PM P_inv) (fun MATRIX =>
      if String.eqb (optimality c) "D" then
        let value := match linalg_det MATRIX with
                     | Some v => v
                     | None => nan
                     end in
        Ret (fneg value)
      else if String.eqb (optimality c) "A" then
        let value := match linalg_inv MATRIX with
                     | Some MInv => trace MInv
                     | None => nan
                     end in
        Ret value
      else Raise (ValueError InvalidCriterion)))
  end).

(** [objective(x)].  [Model_mat], [run] and [feat] are not assigned in the
    body, so they are the variables of [cordex_continuous].  In
    [Model_mat[run, feat] = x] the names are looked up from left to right
    before the store happens. *)
Definition objective (x : float64) : M float64 :=
  update (with_event (EvCriterion x)) ;;;
  mm <- read Model_mat ;;
  r <- (fun fr => match run fr with
                  | Some r => (Ret r, fr)
                  | None => (Raise NameError, fr)
                  end) ;;
  f <- (fun fr => match feat fr with
                  | Some f => (Ret f, fr)
                  | None => (Raise NameError, fr)
                  end) ;;
  match mm with
  | None => raise TypeError
  | Some m =>
      match set m r f x with
      | None => raise IndexError
      | Some m' =>
          update (with_Model_mat (Some m')) ;;;
          lift (obind (Mu_of m') criterion_of)
      end
  end.

(** Lines 105-109: [check(obj)].  [Best_obj] is read from the frame of
    [cordex_continuous]; for any other criterion the function returns
    [None], which is false in a condition. *)
Definition check (obj : float64) (fr : frame) : bool :=
  if mem_string (optimality c) ["A"%string] then
    flt zero obj && flt obj (Best_obj fr)
  else if mem_string (optimality c) ["D"%string] then
    flt obj zero && flt zero (Best_obj fr)
  else false.

End Objective.

(** ** Lines 111-132 and 147-170: epochs, final pass, result *)

Section Search.
Context {LA : Linalg} {SD : StartDesign} {MZ : Minimizer}.
Variable c : config.

(** [minimize(fun, x0, method=method, bounds=[(-1, 1)])]: the objective is
    called at the first trial point, then as the strategy asks. *)
Fixpoint minimize_loop (fuel : nat) (f : float64 -> M float64) (x0 : float64)
    (hist : list (float64 * float64)) {struct fuel} : M (option float64) :=
  match next_step (method c) x0 hist with
  | Stop res_x => ret res_x
  | Query x =>
      match fuel with
      | O => ret (out_of_budget (method c) x0 hist)
      | S k => v <- f x ;; minimize_loop k f x0 ((x, v) :: hist)
      end
  end.

Definition minimize (f : float64 -> M float64) (x0 : float64)
  : M (option float64) :=
  let x1 := first_trial (method c) x0 in
  v <- f x1 ;; minimize_loop maxfun f x0 [(x1, v)].

(** [res.x] as an argument of [objective]: storing [None] into a float
    array stores nan. *)
Definition as_float (res_x : option float64) : float64 :=
  match res_x with Some x => x | None => nan end.

(** [with update_lock: body].  The lock made by [Manager().Lock()] is not
    re-entrant. *)
Definition acquire : M unit :=
  fun fr => if lock_held fr then (Raise Deadlock, fr)
            else (Ret tt, with_lock true fr).

Definition with_update_lock {A} (body : M A) : M A :=
  acquire ;;; finally body (with_lock false).

(** Lines 115-120. *)
Definition start_design : M matrix :=
  update (with_event EvStartDesign) ;;;
  n <- read draws ;;
  update with_draw ;;;
  if random_start c then
    p <- lift (gen_rand_design_m n (runs c) (f_list c) (scalars c)) ;;
    lift (hcat (fst p) (snd p))
  else
    p <- lift (cordex_discrete n (runs c) (f_list c) (scalars c)
                               (optimality c) (J_cb c)) ;;
    ret (fst p).

Definition index_error {A} (o : option A) : M A :=
  match o with Some a => ret a | None => raise IndexError end.

(** Lines 123-126, for the loop variables [run] and [feat] of [run_epoch]
    and its own [Model_mat] and [objective_value]. *)
Definition epoch_cell (run feat : nat) (st : matrix * float64)
  : M (matrix * float64) :=
  let Model := fst st in
  update (with_event (EvMinimize run feat)) ;;;
  x0 <- index_error (get Model run feat) ;;
  res_x <- minimize (objective c) x0 ;;
  Model' <- match res_x with
            | Some x => index_error (set Model run feat x)
            | None => ret Model
            end ;;
  objective_value <- objective c (as_float res_x) ;;
  ret (Model', objective_value).

(** Lines 121-126. *)
Definition epoch_sweep (Model : matrix) : M (matrix * float64) :=
  for_fold (range (runs c))
    (fun run st =>
       for_fold (range (f_coeffs c + scalars c - 1))
         (fun feat st' => epoch_cell run feat st') st)
    (Model, inf).

(** [run_epoch(args)].  [Model_mat], [run], [feat], [objective_value],
    [Best_obj] and [Best_des] are assigned in the body, hence local: the
    two assignments of lines 131-132 end with the call. *)
Definition run_epoch (args : option (unit * Z)) : M unit :=
  match args with
  | None => raise TypeError          (* line 112: None cannot be unpacked *)
  | Some (update_lock, epoch) =>
      with_update_lock
        (Model <- start_design ;;
         st <- epoch_sweep Model ;;
         ok <- read (check c (snd st)) ;;
         if ok then
           with_update_lock
             (ok' <- read (check c (snd st)) ;;
              if ok' then ret tt (* Best_obj, Best_des: locals *) else ret tt)
         else ret tt)
  end.

(** Lines 163-165, for the loop variables of [cordex_continuous]. *)
Definition final_cell : M float64 :=
  mm <- read Model_mat ;;
  r <- read run ;;
  f <- read feat ;;
  match mm, r, f with
  | None, _, _ => raise TypeError
  | _, None, _ | _, _, None => raise NameError
  | Some m, Some r, Some f =>
      update (with_event (EvMinimize r f)) ;;;
      x0 <- index_error (get m r f) ;;
      res_x <- minimize (objective c) x0 ;;
      m1 <- read Model_mat ;;
      m2 <- index_error (match m1 with
                         | Some m1 => set m1 r f (as_float res_x)
                         | None => None
                         end) ;;
      update (with_Model_mat (Some m2)) ;;;
      objective c (as_float res_x)
  end.

(** Lines 160-165: [Model_mat.shape] of [None] is an [AttributeError]. *)
Definition final_sweep : M float64 :=
  mm <- read Model_mat ;;
  match mm with
  | None => raise AttributeError
  | Some m =>
      for_fold (seq 0 (nrows m))
        (fun r ov =>
           update (with_run (Some r)) ;;;
           m' <- read Model_mat ;;
           match m' with
           | None => raise AttributeError
           | Some m' =>
               for_fold (seq 0 (ncols m'))
                 (fun f _ => update (with_feat (Some f)) ;;; final_cell) ov
           end)
        inf
  end.

(** Lines 159-168. *)
Definition final_pass_round : M unit :=
  objective_value <- final_sweep ;;
  ok <- read (check c objective_value) ;;
  if ok then update (with_Best RefModelMat objective_value) else ret tt.

(** The frame after lines 141-145. *)
Definition initial_frame : frame :=
  {| Model_mat := None; run := None; feat := None; Best_des := RefNone;
     Best_obj := inf; lock_held := false; draws := 0; log := [] |}.

Definition deref (fr : frame) : option matrix :=
  match Best_des fr with
  | RefNone => None
  | RefModelMat => Model_mat fr
  end.

(** [cordex_continuous(...)] with the sequential scheduler. *)
Definition cordex_continuous_from : M (option matrix * float64) :=
  if negb (mem_string (method c) valid_methods) then
    raise (ValueError InvalidMethod)
  else if (runs c <? len_Z (f_list c) + scalars c)%Z then
    raise (ValueError NotEstimable)
  else
    lift (ones (runs c)) ;;;
    for_each (range (epochs c)) (fun _ => run_epoch None) ;;;
    (if final_pass c
     then for_each (range (final_pass_iter c)) (fun _ => final_pass_round)
     else ret tt) ;;;
    fr <- read (fun fr => fr) ;;
    ret (deref fr, fabs (Best_obj fr)).

Definition cordex_continuous : outcome (option matrix * float64) * frame :=
  cordex_continuous_from initial_frame.

End Search.

End Cordex.

(* ================================================================== *)
(** * bayesian_opt.py *)

Module BayesOpt.

Inductive acquisition : Type :=
| qExpectedImprovement (best_f : float64)
| qProbabilityOfImprovement (best_f : float64)
| qUpperConfidenceBound.

(** The surrogate model of botorch.  [None] stands for any exception raised
    by the fit or by the acquisition optimiser.  Both use random restarts;
    the first argument is the round in which they are called.  The
    inequality constraints are handed through unchanged and are part of the
    optimiser. *)
Class Surrogate : Type := {
  surrogate_model : Type;
  fit_gpytorch_model : nat -> matrix -> list float64 -> option surrogate_model;
  optimize_acqf : nat -> surrogate_model -> acquisition -> Z -> option matrix
}.

(** The two sources of the first observation: [gen_rand_design(runs, feats)]
    and the coordinate exchange of the module [cordex_continuous], called
    with [runs], [feats], [epochs], [method] and [optimality]. *)
Class InitialDesign : Type := {
  gen_rand_design : Z -> Z -> outcome matrix;
  cordex_bootstrap : Z -> Z -> Z -> string -> string ->
                     outcome (matrix * float64)
}.

Record config : Type := {
  epochs : Z;
  runs : Z;
  feats : Z;
  optimality : string;
  J_cb : option matrix;
  n_exp : Z;
  acq_f : string;
  initialization_method : option string
}.

Section Loop.
Context {LA : Linalg} {SU : Surrogate} {ID : InitialDesign}.
Variable c : config.

Notation "x <- o ;; k" := (Cordex.obind o (fun x => k))
  (at level 61, o at next level, right associativity).

(** Lines 22-63: [gen_next_point]. *)
Definition gen_next_point (round : nat) (X : matrix) (y : list float64)
    (best_y : float64) : outcome matrix :=
  match fit_gpytorch_model round X y with
  | None => Raise SurrogateError
  | Some model =>
      acq <- (if String.eqb (acq_f c) "EI" then Ret (qExpectedImprovement best_y)
              else if String.eqb (acq_f c) "PI"
                   then Ret (qProbabilityOfImprovement best_y)
              else if String.eqb (acq_f c) "UCB" then Ret qUpperConfidenceBound
              else Raise (ValueError InvalidAcquisition)) ;;
      match optimize_acqf round model acq (n_exp c) with
      | None => Raise SurrogateError
      | Some candidates => Ret candidates
      end
  end.

(** Lines 102 and 104-105: the information matrix of a design of [runs]
    rows. *)
Definition M_from (X' : matrix) : outcome matrix :=
  let ones := repeat [one] (Z.to_nat (runs c)) in
  Zetta <- match J_cb c with
           | None => hcat ones X'
           | Some J => XJ <- matmul X' J ;; hcat ones XJ
           end ;;
  matmul (transpose Zetta) Zetta.

(** Lines 102-105: the information matrix of a flattened design.  [X] is a
    numpy array when the first design is evaluated (lines 162 and 182) and a
    tensor when the candidates of a round are (line 199); line 103 is the
    [reshape] of the one or of the other. *)
Definition M_of (X : matrix) : outcome matrix :=
  X' <- reshape X (runs c) (feats c) ;; M_from X'.

Definition M_of_tensor (X : matrix) : outcome matrix :=
  X' <- tensor_reshape X (runs c) (feats c) ;; M_from X'.

(** Lines 107-134, given the information matrix.  The result is the single
    entry of the array that [objective] returns. *)
Definition criterion_of (M : matrix) : outcome float64 :=
  if String.eqb (optimality c) "D" then
    Ret (match linalg_det M with Some cr => cr | None => inf end)
  else if String.eqb (optimality c) "A" then
    Ret (fneg (match linalg_inv M with Some Minv => trace Minv | None => inf end))
  else if String.eqb (optimality c) "E" then
    cr <- match linalg_eigvals M with Some ev => amax ev | None => Ret inf end ;;
    Ret (fneg cr)
  else if String.eqb (optimality c) "I" then
    match linalg_eigvals M with Some ev => amin ev | None => Ret inf end
  else Raise (ValueError InvalidCriterion).

Definition objective (X : matrix) : outcome float64 :=
  M <- M_of X ;; criterion_of M.

Definition objective_tensor (X : matrix) : outcome float64 :=
  M <- M_of_tensor X ;; criterion_of M.

(** The Observation History and the other variables of the loop. *)
Record state : Type := {
  X_init : matrix;
  y_init : list float64;
  best_y_init : float64;
  epochs_list : list (nat * float64 * matrix)
}.

(** Lines 168-184 and 136-166. *)
Definition width : Z := (runs c * feats c)%Z.

Definition get_initial_data : outcome state :=
  X <- gen_rand_design (runs c) (feats c) ;;
  X_flat <- reshape X 1 width ;;
  y <- objective X_flat ;;
  Ret {| X_init := X_flat; y_init := [y]; best_y_init := y;
         epochs_list := [] |}.

Definition get_initial_data_cordex (m : string) : outcome state :=
  match J_cb c with
  | None => Raise AttributeError
  | Some J =>
      let rows := Z.of_nat (nrows J) in
      let ep := (rows / 10 + (if (rows mod 10 =? 0)%Z then 0 else 1))%Z in
      p <- cordex_bootstrap (runs c) rows ep m (optimality c) ;;
      X_flat <- reshape (fst p) 1 width ;;
      y <- objective X_flat ;;
      Ret {| X_init := X_flat; y_init := [y]; best_y_init := snd p;
             epochs_list := [] |}
  end.

(** Lines 196-197: [X_init[:-1, :]]. *)
Definition drop_last {A} (l : list A) : list A := removelast l.

(** [torch.cat([X_init, new_candidates])]: every row of the history has
    [runs * feats] entries, and so must the rows that are added. *)
Definition cat (X new : matrix) : outcome matrix :=
  if forallb (fun r => Nat.eqb (length r) (Z.to_nat width)) new
  then Ret (X ++ new) else Raise OperandError.

(** Lines 191-205: one round. *)
Definition bo_round (epoch : nat) (s : state) : outcome state :=
  match gen_next_point epoch (X_init s) (y_init s) (best_y_init s) with
  | Raise _ =>
      Ret {| X_init := drop_last (X_init s); y_init := drop_last (y_init s);
             best_y_init := best_y_init s; epochs_list := epochs_list s |}
  | Ret new_candidates =>
      r <- objective_tensor new_candidates ;;
      let new_results := to_float32 r in
      X' <- cat (X_init s) new_candidates ;;
      let y' := y_init s ++ [new_results] in
      best <- amax y' ;;
      Ret {| X_init := X'; y_init := y'; best_y_init := best;
             epochs_list := epochs_list s ++ [(epoch, new_results, new_candidates)] |}
  end.

Fixpoint bo_rounds (rounds : list nat) (s : state) : outcome state :=
  match rounds with
  | [] => Ret s
  | epoch :: rest => s' <- bo_round epoch s ;; bo_rounds rest s'
  end.

(** [epochs_list[:, 1].argmax()]: the first entry that no later entry
    exceeds; indexing the columns of an empty list is an [IndexError]. *)
Fixpoint argmax_from (best : nat * float64 * matrix)
    (l : list (nat * float64 * matrix)) : nat * float64 * matrix :=
  match l with
  | [] => best
  | e :: t => if flt (snd (fst best)) (snd (fst e)) then argmax_from e t
              else argmax_from best t
  end.

Definition select_best (l : list (nat * float64 * matrix))
  : outcome (nat * float64 * matrix) :=
  match l with
  | [] => Raise IndexError
  | e :: t => Ret (argmax_from e t)
  end.

Definition initial_state : outcome state :=
  match initialization_method c with
  | None => get_initial_data
  | Some m => get_initial_data_cordex m
  end.

(** Lines 186-213. *)
Definition bo_loop_state : outcome state :=
  s0 <- initial_state ;; bo_rounds (range (epochs c)) s0.

Definition bo_loop : outcome (matrix * float64) :=
  s <- bo_loop_state ;;
  best <- select_best (epochs_list s) ;;
  let Opt_best := snd (fst best) in
  let Opt_best := if Cordex.mem_string (optimality c) ["D"; "I"]%string
                  then Opt_best else fneg Opt_best in
  Best_des <- reshape (snd best) (runs c) (feats c) ;;
  Ret (Best_des, Opt_best).

End Loop.

End BayesOpt.

(* ================================================================== *)
(** * Concrete collaborators

    One implementation of each collaborator, used to run the functions on
    concrete inputs. *)

Module Reference.

Definition square (m : matrix) : bool :=
  forallb (fun r => Nat.eqb (length r) (nrows m)) m.

Definition drop_col (j : nat) (r : list float64) : list float64 :=
  firstn j r ++ skipn (S j) r.
Definition drop_row (i : nat) (m : matrix) : matrix :=
  firstn i m ++ skipn (S i) m.

Definition signed (j : nat) (x : float64) : float64 :=
  if Nat.even j then x else fneg x.

(** Expansion of the determinant along the first row. *)
Fixpoint det_rec (n : nat) (m : matrix) : float64 :=
  match n, m with
  | S k, r0 :: rest =>
      fold_left fadd
        (map (fun j => fmul (signed j (nth j r0 zero))
                            (det_rec k (map (drop_col j) rest)))
             (seq 0 (length r0)))
        zero
  | _, _ => one
  end.

Definition det (m : matrix) : option float64 :=
  if square m then Some (det_rec (nrows m) m) else None.

(** The inverse from the cofactors; a zero determinant is the singular
    case. *)
Definition cofactor (m : matrix) (i j : nat) : float64 :=
  signed (i + j) (det_rec (nrows m - 1) (map (drop_col j) (drop_row i m))).

Definition inv (m : matrix) : option matrix :=
  if square m then
    let d := det_rec (nrows m) m in
    if feq d zero then None
    else Some (map (fun i => map (fun j => fdiv (cofactor m j i) d)
                                 (seq 0 (nrows m)))
                   (seq 0 (nrows m)))
  else None.

(** [numpy.linalg.eigvals] refuses an array with an entry that is not
    finite.  Eigenvalues are produced for diagonal matrices only; on any
    other matrix the routine reports that it did not converge. *)
Definition all_finite (m : matrix) : bool :=
  forallb (forallb is_finite) m.

Definition diagonal (m : matrix) : bool :=
  square m &&
  forallb (fun i => forallb (fun j => Nat.eqb i j || is_zero (nth j (nth i m []) zero))
                            (seq 0 (nrows m)))
          (seq 0 (nrows m)).

Definition eigvals (m : matrix) : option (list float64) :=
  if all_finite m && diagonal m
  then Some (map (fun i => nth i (nth i m []) zero) (seq 0 (nrows m)))
  else None.

#[local] Instance linalg : Linalg :=
  {| linalg_inv := inv; linalg_det := det; linalg_eigvals := eigvals |}.

(** A start design with entries 1 and -1 in a chequerboard, shifted by the
    number of the draw. *)
Definition chequer (draw rows cols : nat) : matrix :=
  map (fun i => map (fun j => if Nat.even (draw + i + j) then one else fneg one)
                    (seq 0 cols))
      (seq 0 rows).

#[local] Instance start_design : StartDesign :=
  {| gen_rand_design_m := fun draw runs f_list scalars =>
       Ret (chequer draw (Z.to_nat runs) (Z.to_nat (Cordex.sum_Z f_list)),
            chequer (S draw) (Z.to_nat runs) (Z.to_nat scalars));
     cordex_discrete := fun draw runs f_list scalars _ _ =>
       Ret (chequer draw (Z.to_nat runs)
                    (Z.to_nat (Cordex.sum_Z f_list + scalars)), one) |}.

(** A minimiser that tries the two ends of the interval after the start
    point and keeps the point with the smallest value. *)
Fixpoint best_of (hist : list (float64 * float64)) : option float64 :=
  match hist with
  | [] => None
  | (x, v) :: t =>
      match best_of t with
      | None => Some x
      | Some x' =>
          match find (fun p => feq (fst p) x') t with
          | Some (_, v') => if flt v v' then Some x else Some x'
          | None => Some x
          end
      end
  end.

#[local] Instance minimizer : Minimizer :=
  {| first_trial := fun _ x0 => x0;
     next_step := fun _ _ hist =>
       match length hist with
       | 1 => Query (fneg one)
       | 2 => Query one
       | _ => Stop (best_of hist)
       end;
     maxfun := 10;
     out_of_budget := fun _ _ hist => best_of hist |}.

(** A surrogate whose fit fails in every round, and one that proposes the
    all-zero design in every round. *)
#[local] Instance failing_surrogate : BayesOpt.Surrogate :=
  {| BayesOpt.surrogate_model := unit;
     BayesOpt.fit_gpytorch_model := fun _ _ _ => None;
     BayesOpt.optimize_acqf := fun _ _ _ _ => None |}.

#[local] Instance constant_surrogate (candidates : matrix) : BayesOpt.Surrogate :=
  {| BayesOpt.surrogate_model := unit;
     BayesOpt.fit_gpytorch_model := fun _ _ _ => Some tt;
     BayesOpt.optimize_acqf := fun _ _ _ _ => Some candidates |}.

#[local] Instance initial_design : BayesOpt.InitialDesign :=
  {| BayesOpt.gen_rand_design := fun runs feats =>
       Ret (chequer 0 (Z.to_nat runs) (Z.to_nat feats));
     BayesOpt.cordex_bootstrap := fun runs feats _ _ _ =>
       Ret (chequer 0 (Z.to_nat runs) (Z.to_nat feats), one) |}.

(** [np.sin] and [np.cos] by their Taylor polynomials of degree 7 and 6,
    evaluated in binary64 by Horner's rule; the values at zero, at the
    infinities and at nan are those of IEEE 754. *)
Definition horner (coefficients : list float64) (x : float64) : float64 :=
  fold_right (fun a acc => fadd a (fmul x acc)) zero coefficients.

Definition sin64 (x : float64) : float64 :=
  match x with
  | S754_zero _ => x
  | S754_infinity _ | S754_nan => nan
  | S754_finite _ _ _ =>
      fmul x (horner [one; fdiv (fneg one) (of_Z 6); fdiv one (of_Z 120);
                      fdiv (fneg one) (of_Z 5040)] (fmul x x))
  end.

Definition cos64 (x : float64) : float64 :=
  match x with
  | S754_infinity _ | S754_nan => nan
  | _ => horner [one; fdiv (fneg one) (of_Z 2); fdiv one (of_Z 24);
                 fdiv (fneg one) (of_Z 720)] (fmul x x)
  end.

#[local] Instance libm : Basis.Libm :=
  {| Basis.np_sin := sin64; Basis.np_cos := cos64;
     Basis.sin_of_zero := fun s => eq_refl;
     Basis.sin_of_nan := eq_refl |}.

End Reference.

(* ================================================================== *)
(** * The Criterion Evaluator as the specification words it

    These definitions follow section 4.1 of the specification, not the
    code; they are compared with [Cordex.criterion_of] and
    [BayesOpt.criterion_of] below. *)

Module Spec.

Inductive kind : Type := KA | KD | KE | KI.

Definition kind_of (s : string) : option kind :=
  if String.eqb s "D" then Some KD
  else if String.eqb s "A" then Some KA
  else if String.eqb s "E" then Some KE
  else if String.eqb s "I" then Some KI
  else None.

(** "D: ... (maximize)", "A: ... (minimize)", "E: ... (minimize)",
    "I: ... (maximize)". *)
Definition maximised (k : kind) : bool :=
  match k with KD | KI => true | KA | KE => false end.

(** The search that consumes the value: [cordex_continuous] hands it to a
    minimiser, [bo_loop] keeps the largest value. *)
Inductive search : Type := Minimising | Maximising.

Section Evaluator.
Context {LA : Linalg}.

Definition to_option {A} (o : outcome A) : option A :=
  match o with Ret a => Some a | Raise _ => None end.

Definition obind' {A B} (o : option A) (k : A -> option B) : option B :=
  match o with Some a => k a | None => None end.

(** Steps 1 and 2: "a leading column of ones, the transformed-factor block
    mapped through the basis expansion matrix, and the scalar block,
    concatenated by column", and "M = Z^T Z".  A row of Z is the entry 1,
    the transformed-factor block of the run mapped through the basis
    expansion matrix, and the scalar block of the run; the entry (a, b) of M
    is the product of the columns a and b of Z. *)
Definition regressor_row (J : option matrix) (transformed scalar : list float64)
  : list float64 :=
  [one] ++ match J with
           | Some J => map (fun column => dot transformed column) (transpose J)
           | None => []
           end ++ scalar.

Definition products_of_columns (Z : matrix) : matrix :=
  map (fun a => map (fun b => dot a b) (transpose Z)) (transpose Z).

(** Step 3: "P = M + smoothness_weight R0 + ridge_weight I (terms present
    only when configured; defaults to the identity when no penalization is
    configured and no ridge is set)". *)
Definition configured_terms (R_0 : option matrix) (smooth ridge : float64)
    (n : nat) : list matrix :=
  match R_0 with Some R => [smul smooth R] | None => [] end ++
  (if feq ridge zero then [] else [smul ridge (identity n)]).

Definition spec_P (M : matrix) (R_0 : option matrix) (smooth ridge : float64)
  : outcome matrix :=
  match configured_terms R_0 smooth ridge (nrows M) with
  | [] => Ret (identity (nrows M))
  | terms => fold_left (fun acc t => Cordex.obind acc (fun a => madd a t))
                       terms (Ret M)
  end.

(** Step 4: "M* = P^-1 M P^-1". *)
Definition sandwich (P_inv M : matrix) : outcome matrix :=
  Cordex.obind (matmul P_inv M) (fun PM => matmul PM P_inv).

(** Step 5, before any sign: the criterion of the sandwich matrix [Mstar]
    and the information matrix [M]. *)
Definition natural_value (k : kind) (Mstar M : matrix) : option float64 :=
  match k with
  | KD => linalg_det Mstar
  | KA => option_map trace (linalg_inv Mstar)
  | KE => obind' (linalg_eigvals M) (fun ev => to_option (amax ev))
  | KI => obind' (linalg_eigvals M) (fun ev => to_option (amin ev))
  end.

(** The value as the claim lists it: D negated, A as it is, E negated, I as
    it is. *)
Definition claimed_value (k : kind) (Mstar M : matrix) : option float64 :=
  match k with
  | KD | KE => option_map fneg (natural_value k Mstar M)
  | KA | KI => natural_value k Mstar M
  end.

(** One table of signs: a value is negated exactly when the direction of the
    criterion is opposite to the direction of the search. *)
Definition negated (s : search) (k : kind) : bool :=
  match s with
  | Minimising => maximised k
  | Maximising => negb (maximised k)
  end.

Definition internal_value (s : search) (k : kind) (Mstar M : matrix)
  : option float64 :=
  option_map (fun v => if negated s k then fneg v else v)
             (natural_value k Mstar M).

End Evaluator.

End Spec.

(* ================================================================== *)
(** * Concrete inputs *)

Module Inputs.

Import Reference.

Definition two : float64 := of_Z 2.

(** [cordex_continuous(runs, f_list, scalars, optimality, J_cb, epochs=...,
    final_pass=..., final_pass_iter=...)]; the other arguments have their
    default values except [random_start=True]. *)
Definition cordex_call (runs : Z) (f_list : list Z) (scalars : Z)
    (optimality : string) (J_cb : option matrix) (method : string)
    (epochs : Z) (final_pass : bool) (final_pass_iter : Z) : Cordex.config :=
  {| Cordex.runs := runs; Cordex.f_list := f_list; Cordex.scalars := scalars;
     Cordex.optimality := optimality; Cordex.J_cb := J_cb;
     Cordex.R_0 := None; Cordex.smooth_pen := zero; Cordex.ridge_pen := zero;
     Cordex.epochs := epochs; Cordex.method := method;
     Cordex.random_start := true; Cordex.final_pass := final_pass;
     Cordex.final_pass_iter := final_pass_iter |}.

(** Two runs, one factor with a single basis function, one scalar factor,
    one epoch. *)
Definition one_epoch : Cordex.config :=
  cordex_call 2 [1%Z] 1 "D" (Some [[one; zero]; [zero; one]]) "L-BFGS-B"
              1 true 100.

(** The same call without epochs and without the final pass. *)
Definition no_epoch : Cordex.config :=
  cordex_call 2 [1%Z] 1 "D" (Some [[one; zero]; [zero; one]]) "L-BFGS-B"
              0 false 100.

(** One factor with three basis functions and two runs:
    [runs = sum(f_list) + scalars - 1]. *)
Definition short_of_one_run : Cordex.config :=
  cordex_call 2 [3%Z] 0 "A" None "L-BFGS-B" 1000 true 100.

(** A criterion that is none of the four kinds. *)
Definition unknown_criterion : Cordex.config :=
  cordex_call 2 [1%Z] 1 "X" (Some [[one; zero]; [zero; one]]) "L-BFGS-B"
              1 true 100.
Definition unknown_criterion_no_epoch : Cordex.config :=
  cordex_call 2 [1%Z] 1 "X" (Some [[one; zero]; [zero; one]]) "L-BFGS-B"
              0 false 100.

Definition unknown_method : Cordex.config :=
  cordex_call 2 [1%Z] 1 "D" (Some [[one; zero]; [zero; one]]) "BFGS"
              1 true 100.

Definition too_few_runs : Cordex.config :=
  cordex_call 1 [1%Z] 1 "D" (Some [[one; zero]; [zero; one]]) "L-BFGS-B"
              1 true 100.

(** A penalised configuration for the evaluator: one factor with one basis
    function, [J_cb = [[1]]], [R_0 = [[0, 0], [0, 4]]], [smooth_pen = 1],
    [ridge_pen = 2]. *)
Definition penalised (optimality : string) : Cordex.config :=
  {| Cordex.runs := 2; Cordex.f_list := [1%Z]; Cordex.scalars := 0;
     Cordex.optimality := optimality; Cordex.J_cb := Some [[one]];
     Cordex.R_0 := Some [[zero; zero]; [zero; of_Z 4]];
     Cordex.smooth_pen := one; Cordex.ridge_pen := two;
     Cordex.epochs := 1; Cordex.method := "L-BFGS-B";
     Cordex.random_start := true; Cordex.final_pass := true;
     Cordex.final_pass_iter := 100 |}.

(** No penalty matrix and no ridge: P is the identity. *)
Definition unpenalised (optimality : string) : Cordex.config :=
  cordex_call 2 [1%Z] 0 optimality (Some [[one]]) "L-BFGS-B" 1 true 100.

(** The same with [R_0 = -M] for the information matrix [[2, 0], [0, 2]] and
    no ridge: P is the zero matrix. *)
Definition singular_penalty (optimality : string) : Cordex.config :=
  {| Cordex.runs := 2; Cordex.f_list := [1%Z]; Cordex.scalars := 0;
     Cordex.optimality := optimality; Cordex.J_cb := Some [[one]];
     Cordex.R_0 := Some [[fneg two; zero]; [zero; fneg two]];
     Cordex.smooth_pen := one; Cordex.ridge_pen := zero;
     Cordex.epochs := 1; Cordex.method := "L-BFGS-B";
     Cordex.random_start := true; Cordex.final_pass := true;
     Cordex.final_pass_iter := 100 |}.

(** The information matrix of the design with rows (1) and (-1). *)
Definition Mu22 : matrix := [[two; zero]; [zero; two]].

(** [bo_loop(epochs, runs=2, feats=1, optimality, J_cb=None)]. *)
Definition bo_call (epochs : Z) (optimality : string) (n_exp : Z)
  : BayesOpt.config :=
  {| BayesOpt.epochs := epochs; BayesOpt.runs := 2; BayesOpt.feats := 1;
     BayesOpt.optimality := optimality; BayesOpt.J_cb := None;
     BayesOpt.n_exp := n_exp; BayesOpt.acq_f := "EI";
     BayesOpt.initialization_method := None |}.

(** [bo_loop(epochs=1, runs=2, feats=1, optimality='I',
    J_cb=np.array([[1e200]]))]: the square of an entry of [X @ J_cb] is
    beyond the largest binary64 number. *)
Definition overflowing : BayesOpt.config :=
  {| BayesOpt.epochs := 1; BayesOpt.runs := 2; BayesOpt.feats := 1;
     BayesOpt.optimality := "I"; BayesOpt.J_cb := Some [[of_Z (10 ^ 200)]];
     BayesOpt.n_exp := 1; BayesOpt.acq_f := "EI";
     BayesOpt.initialization_method := None |}.

(** The history after the initialisation of [bo_call _ "D" _]: the design
    (1, -1) with determinant 4. *)
Definition first_observation : BayesOpt.state :=
  {| BayesOpt.X_init := [[one; fneg one]];
     BayesOpt.y_init := [of_Z 4];
     BayesOpt.best_y_init := of_Z 4;
     BayesOpt.epochs_list := [] |}.

(** The functions with the collaborators of [Reference]. *)
Definition cordex_continuous (c : Cordex.config) :=
  @Cordex.cordex_continuous linalg start_design minimizer c.
Definition run_epoch (c : Cordex.config) (args : option (unit * Z)) :=
  @Cordex.run_epoch linalg start_design minimizer c args.
Definition bo_loop (S : BayesOpt.Surrogate) (c : BayesOpt.config) :=
  @BayesOpt.bo_loop linalg S initial_design c.
Definition bo_round (S : BayesOpt.Surrogate) (c : BayesOpt.config) :=
  @BayesOpt.bo_round linalg S c.

End Inputs.

(* ================================================================== *)
(** * Further concrete inputs and predicates *)

Module MoreInputs.

Import Reference Inputs.

(** A frame of [cordex_continuous] in which [Model_mat] holds the design
    with rows (1, -1) and (-1, 1) and the loop variables are at (0, 0). *)
Definition bound_frame : Cordex.frame :=
  Cordex.with_feat (Some 0)
    (Cordex.with_run (Some 0)
       (Cordex.with_Model_mat (Some [[one; fneg one]; [fneg one; one]])
          Cordex.initial_frame)).

(** One factor with one basis function, [J_cb = [[1]]], no epochs and one
    round of the final pass; and a frame in which [Model_mat] holds the
    design with the runs 1 and -1. *)
Definition single_column : Cordex.config :=
  cordex_call 2 [1%Z] 0 "D" (Some [[one]]) "L-BFGS-B" 0 true 1.

Definition single_column_frame : Cordex.frame :=
  Cordex.with_Model_mat (Some [[one]; [fneg one]]) Cordex.initial_frame.

(** No epochs, final pass requested. *)
Definition no_epoch_final_pass : Cordex.config :=
  cordex_call 2 [1%Z] 1 "D" (Some [[one; zero]; [zero; one]]) "L-BFGS-B"
              0 true 100.

(** [bo_loop(epochs=3, runs=2, feats=1, optimality='D', J_cb=None,
    acq_f='XX')]. *)
Definition bad_acquisition : BayesOpt.config :=
  {| BayesOpt.epochs := 3; BayesOpt.runs := 2; BayesOpt.feats := 1;
     BayesOpt.optimality := "D"; BayesOpt.J_cb := None;
     BayesOpt.n_exp := 1; BayesOpt.acq_f := "XX";
     BayesOpt.initialization_method := None |}.

End MoreInputs.

Module Records.

Import BayesOpt.

(** An entry of [epochs_list] that was generated by [gen_next_point] in its
    round and carries the single-precision value of [objective] on it. *)
Definition recorded_in_a_round {LA : Linalg} {SU : Surrogate} (c : config)
    (e : nat * float64 * matrix) : Prop :=
  exists X y b v,
    gen_next_point c (fst (fst e)) X y b = Ret (snd e) /\
    objective_tensor c (snd e) = Ret v /\
    snd (fst e) = to_float32 v.

End Records.

(* ================================================================== *)
(** * Predicates on frames *)

Module Invariants.

Import Cordex.

(** The Best-Result Pair of [cordex_continuous] is the same in two frames. *)
Definition same_best (fr fr' : frame) : Prop :=
  Best_des fr' = Best_des fr /\ Best_obj fr' = Best_obj fr.

(** A computation that leaves the Best-Result Pair as it found it, whether
    it returns or raises. *)
Definition keeps_best {A} (m : M A) : Prop :=
  forall fr, same_best fr (snd (m fr)).

(** The search work recorded so far. *)
Definition no_search_work (fr : frame) : Prop := log fr = [].

(** A value is the criterion value, as [objective] returns it, of the design
    that [Model_mat] holds. *)
Definition evaluates {LA : Linalg} (c : config) (v : float64) (fr : frame)
  : Prop :=
  exists m, Model_mat fr = Some m /\ obind (Mu_of c m) (criterion_of c) = Ret v.

(** The Best-Result Pair is consistent: nothing is stored yet and the value
    is the initial [np.inf], or the stored value is the criterion value of
    the stored design. *)
Definition pair_consistent {LA : Linalg} (c : config) (fr : frame) : Prop :=
  match Best_des fr with
  | RefNone => Best_obj fr = inf
  | RefModelMat => evaluates c (Best_obj fr) fr
  end.

End Invariants.

(* ================================================================== *)
(** * Facts about binary64 comparison *)

Module FloatFacts.

Lemma flt_nan_l : forall x, flt nan x = false.
Proof. intros x; destruct x; reflexivity. Qed.

Lemma flt_nan_r : forall x, flt x nan = false.
Proof. intros [s| s | |s m e]; try destruct s; reflexivity. Qed.

Lemma nothing_above_inf : forall x, flt inf x = false.
Proof. intros [s| s | |s m e]; try destruct s; reflexivity. Qed.

Lemma nothing_below_neg_inf : forall x, flt x (fneg inf) = false.
Proof. intros [s| s | |s m e]; try destruct s; reflexivity. Qed.

Lemma finite_below_inf : forall x, is_finite x = true -> flt x inf = true.
Proof. intros [s| s | |s m e] H; try discriminate; destruct s; reflexivity. Qed.

Lemma finite_above_neg_inf :
  forall x, is_finite x = true -> flt (fneg inf) x = true.
Proof. intros [s| s | |s m e] H; try discriminate; destruct s; reflexivity. Qed.

Lemma fabs_inf : fabs inf = inf.
Proof. reflexivity. Qed.

(** [np.abs] of anything but nan is not below zero. *)
Lemma fabs_not_negative :
  forall x, is_nan x = false -> fle zero (fabs x) = true.
Proof. intros [s|s| |s m e] H; try discriminate H; reflexivity. Qed.

Lemma to_float32_inf : to_float32 inf = inf.
Proof. reflexivity. Qed.

End FloatFacts.

(* ================================================================== *)
(** * More on binary64 order and on arrays *)

Module ArrayFacts.

(** ** The order of binary64 numbers *)

Lemma flt_irrefl : forall x, flt x x = false.
Proof.
  intros [s|s| |s m e]; try reflexivity; try (destruct s; reflexivity).
  unfold flt, SFltb, SFcompare.
  destruct s; rewrite Z.compare_refl;
    change (Pos.compare_cont Eq m m) with (Pos.compare m m);
    rewrite Pos.compare_refl; reflexivity.
Qed.

Lemma flt_asym : forall x y, flt x y = true -> flt y x = false.
Proof.
  intros x y. unfold flt, SFltb, SFcompare.
  destruct x as [sx|sx| |sx mx ex], y as [sy|sy| |sy my ey];
    try destruct sx; try destruct sy; try discriminate; try reflexivity;
    change (Pos.compare_cont Eq mx my) with (Pos.compare mx my);
    change (Pos.compare_cont Eq my mx) with (Pos.compare my mx);
    rewrite (Z.compare_antisym ex ey), (Pos.compare_antisym mx my);
    destruct (ex ?= ey)%Z; simpl; try discriminate; try reflexivity;
    destruct (mx ?= my)%positive; simpl; try discriminate; reflexivity.
Qed.

Lemma flt_trans :
  forall x y z, flt x y = true -> flt y z = true -> flt x z = true.
Proof.
  intros x y z. unfold flt, SFltb, SFcompare.
  destruct x as [sx|sx| |sx mx ex], y as [sy|sy| |sy my ey],
           z as [sz|sz| |sz mz ez];
    try destruct sx; try destruct sy; try destruct sz;
    try discriminate; try reflexivity;
    try (intros _ H; exact H); try (intros H _; exact H);
    change (Pos.compare_cont Eq mx my) with (Pos.compare mx my);
    change (Pos.compare_cont Eq my mz) with (Pos.compare my mz);
    change (Pos.compare_cont Eq mx mz) with (Pos.compare mx mz);
    destruct (Z.compare_spec ex ey), (Z.compare_spec ey ez),
             (Z.compare_spec ex ez);
    try discriminate; try reflexivity; try lia; subst;
    destruct (Pos.compare_spec mx my), (Pos.compare_spec my mz),
             (Pos.compare_spec mx mz);
    simpl; try discriminate; try reflexivity; try lia.
Qed.

Lemma fmul_comm : forall x y, fmul x y = fmul y x.
Proof.
  intros x y. unfold fmul, SFmul.
  destruct x as [sx|sx| |sx mx ex], y as [sy|sy| |sy my ey]; try reflexivity;
    try (rewrite xorb_comm; reflexivity).
  rewrite xorb_comm, Pos.mul_comm, Z.add_comm. reflexivity.
Qed.

(** ** Element access *)

Lemma nth_error_set_nth_same :
  forall A (l : list A) i x,
    i < length l -> nth_error (set_nth l i x) i = Some x.
Proof.
  induction l as [|h t IH]; intros i x H; simpl in H; [lia|].
  destruct i; simpl; [reflexivity | apply IH; lia].
Qed.

Lemma nth_error_set_nth_other :
  forall A (l : list A) i j x,
    i <> j -> nth_error (set_nth l i x) j = nth_error l j.
Proof.
  induction l as [|h t IH]; intros i j x H; [reflexivity|].
  destruct i, j; simpl; try reflexivity; try lia. apply IH. lia.
Qed.

Lemma length_set_nth :
  forall A (l : list A) i x, length (set_nth l i x) = length l.
Proof.
  induction l as [|h t IH]; intros i x; [reflexivity|].
  destruct i; simpl; [reflexivity | f_equal; apply IH].
Qed.

Lemma set_defined :
  forall m i j x, get m i j <> None -> exists m', set m i j x = Some m'.
Proof.
  intros m i j x H. unfold get, set in *.
  destruct (nth_error m i) as [r|]; [|congruence].
  destruct (Nat.ltb_spec j (length r)) as [Hj|Hj]; [eauto|].
  exfalso. apply H. apply nth_error_None. exact Hj.
Qed.

Lemma get_set_same :
  forall m i j x m', set m i j x = Some m' -> get m' i j = Some x.
Proof.
  intros m i j x m' H. unfold set in H. unfold get.
  destruct (nth_error m i) as [r|] eqn:E; [|discriminate].
  destruct (Nat.ltb_spec j (length r)) as [Hj|Hj]; [|discriminate].
  inversion H; subst; clear H.
  rewrite nth_error_set_nth_same.
  - apply nth_error_set_nth_same. exact Hj.
  - apply nth_error_Some. congruence.
Qed.

Lemma get_set_other :
  forall m i j x m' i' j',
    set m i j x = Some m' -> (i', j') <> (i, j) ->
    get m' i' j' = get m i' j'.
Proof.
  intros m i j x m' i' j' H Hne. unfold set in H. unfold get.
  destruct (nth_error m i) as [r|] eqn:E; [|discriminate].
  destruct (Nat.ltb_spec j (length r)) as [Hj|Hj]; [|discriminate].
  inversion H; subst; clear H.
  destruct (Nat.eq_dec i i') as [->|Hi].
  - rewrite nth_error_set_nth_same by (apply nth_error_Some; congruence).
    rewrite E. apply nth_error_set_nth_other. congruence.
  - rewrite nth_error_set_nth_other by exact Hi. reflexivity.
Qed.

Lemma shape_set :
  forall m i j x m',
    set m i j x = Some m' ->
    map (@length float64) m' = map (@length float64) m.
Proof.
  intros m i j x m' H. unfold set in H.
  destruct (nth_error m i) as [r|] eqn:E; [|discriminate].
  destruct (Nat.ltb_spec j (length r)) as [Hj|Hj]; [|discriminate].
  inversion H; subst; clear H.
  revert i E. induction m as [|h t IH]; intros i E; [destruct i; discriminate|].
  destruct i; simpl in *.
  - inversion E; subst. rewrite length_set_nth. reflexivity.
  - f_equal. apply IH. exact E.
Qed.

(** ** Products *)

Lemma dot_comm : forall u v, dot u v = dot v u.
Proof.
  intros u v. unfold dot. f_equal.
  revert v; induction u as [|a u IH]; intros [|b v]; simpl; try reflexivity.
  rewrite fmul_comm, IH. reflexivity.
Qed.

Lemma map_nth_seq :
  forall A B (f : A -> B) (l : list A) d,
    map f l = map (fun j => f (nth j l d)) (seq 0 (length l)).
Proof.
  intros A B f l d. induction l as [|a l IH]; [reflexivity|].
  simpl. f_equal. rewrite IH at 1. rewrite <- seq_shift, map_map. reflexivity.
Qed.

(** The matrix of all products of the vectors of a list is its own
    transpose. *)
Lemma gram_symmetric :
  forall T : matrix,
    transpose (map (fun r => map (fun col => dot r col) T) T)
    = map (fun r => map (fun col => dot r col) T) T.
Proof.
  intros T. unfold transpose.
  set (G := map (fun r => map (fun col => dot r col) T) T).
  assert (Hc : ncols G = length T).
  { unfold G. destruct T as [|r T']; [reflexivity|].
    simpl. rewrite length_map. reflexivity. }
  rewrite Hc. unfold G at 2.
  rewrite (map_nth_seq (fun r => map (fun col => dot r col) T) T []).
  apply map_ext_in. intros j Hj. apply in_seq in Hj.
  unfold G. rewrite map_map.
  apply map_ext_in. intros r Hr.
  rewrite (nth_indep _ zero (dot r [])) by (rewrite length_map; lia).
  rewrite (map_nth (fun col => dot r col) T [] j). apply dot_comm.
Qed.

Lemma transpose_rows_length :
  forall Z : matrix,
    forallb (fun r => Nat.eqb (length r) (nrows Z)) (transpose Z) = true.
Proof.
  intro Z. unfold transpose. apply forallb_forall. intros r Hr.
  apply in_map_iff in Hr. destruct Hr as [j [<- _]].
  rewrite length_map. apply Nat.eqb_refl.
Qed.

Lemma information_symmetric :
  forall Z M : matrix, matmul (transpose Z) Z = Ret M -> transpose M = M.
Proof.
  intros Z M. unfold matmul. rewrite transpose_rows_length.
  intro H; inversion H; subst; clear H. apply gram_symmetric.
Qed.

(** ** Rows of products and of concatenations *)

Lemma matmul_rows :
  forall a b m, matmul a b = Ret m ->
    m = map (fun r => map (fun col => dot r col) (transpose b)) a.
Proof.
  intros a b m. unfold matmul.
  destruct (forallb _ a); intro H; [|discriminate H].
  inversion H; reflexivity.
Qed.

Lemma hcat_rows :
  forall a b m, hcat a b = Ret m ->
    length a = length b /\ m = map (fun p => fst p ++ snd p) (combine a b).
Proof.
  intros a b m. unfold hcat, nrows.
  destruct (Nat.eqb_spec (length a) (length b)) as [E|E]; intro H;
    [|discriminate H].
  inversion H; auto.
Qed.

Lemma combine_map_map :
  forall A B C (f : A -> B) (g : A -> C) l,
    combine (map f l) (map g l) = map (fun x => (f x, g x)) l.
Proof. induction l as [|x l IH]; simpl; [reflexivity | now rewrite IH]. Qed.

Lemma combine_repeat :
  forall A B (a : A) (l : list B),
    combine (repeat a (length l)) l = map (fun x => (a, x)) l.
Proof. induction l as [|x l IH]; simpl; [reflexivity | now rewrite IH]. Qed.

(** [Z.T @ Z] is always defined, and its entry (a, b) is the product of the
    columns a and b of Z. *)
Lemma information_products :
  forall Z, matmul (transpose Z) Z = Ret (Spec.products_of_columns Z).
Proof.
  intro Z. unfold matmul. rewrite transpose_rows_length. reflexivity.
Qed.

(** ** Flattening and reshaping *)

Lemma chunks_concat :
  forall (c : nat) (m : matrix),
    (forall r, In r m -> length r = c) -> chunks c (concat m) (length m) = m.
Proof.
  intros c m; induction m as [|r m IH]; intro H; [reflexivity|].
  assert (Hr : length r = c) by (apply H; left; reflexivity).
  assert (IH' : chunks c (concat m) (length m) = m)
    by (apply IH; intros r' Hr'; apply H; right; exact Hr').
  subst c. simpl.
  rewrite firstn_app, skipn_app, Nat.sub_diag, firstn_all, skipn_all.
  simpl. rewrite app_nil_r, IH'. reflexivity.
Qed.

Lemma length_concat_rows :
  forall (c : nat) (m : matrix),
    (forall r, In r m -> length r = c) -> length (concat m) = length m * c.
Proof.
  intros c m; induction m as [|r m IH]; intro H; [reflexivity|].
  simpl. rewrite length_app.
  rewrite IH by (intros r' Hr'; apply H; right; exact Hr').
  rewrite (H r) by (left; reflexivity). lia.
Qed.

Lemma reshape_one_row :
  forall X w Xf, reshape X 1 w = Ret Xf -> Xf = [flatten X].
Proof.
  intros X w Xf. unfold reshape, reshape_in, reshape_dims, inferred.
  set (n := Z.of_nat (length (flatten X))).
  change (1 <? 0)%Z with false. cbv iota.
  destruct (w <? 0)%Z.
  - change (1 <=? 0)%Z with false. rewrite Z.mod_1_r. cbn [orb negb Z.eqb].
    intro H; inversion H; subst; clear H. simpl.
    rewrite Z.div_1_r. unfold n. rewrite Nat2Z.id, firstn_all. reflexivity.
  - cbn [orb].
    destruct (n =? 1 * w)%Z eqn:E; [|discriminate].
    apply Z.eqb_eq in E. intro H; inversion H; subst; clear H. simpl.
    replace (Z.to_nat w) with (length (flatten X)) by (unfold n in E; lia).
    rewrite firstn_all. reflexivity.
Qed.

Lemma inferred_nonneg :
  forall lib d, (0 <= d)%Z -> inferred lib d = false.
Proof.
  intros [|] d H; unfold inferred;
    [apply Z.ltb_ge; lia | apply Z.eqb_neq; lia].
Qed.

(** With dimensions that are not negative, numpy and torch reshape alike. *)
Lemma reshape_in_size :
  forall lib X r c X',
    (0 <= r)%Z -> (0 <= c)%Z -> reshape_in lib X r c = Ret X' ->
    Z.of_nat (length (flatten X)) = (r * c)%Z /\
    X' = chunks (Z.to_nat c) (flatten X) (Z.to_nat r).
Proof.
  intros lib X r c X' Hr Hc. unfold reshape_in, reshape_dims.
  rewrite !inferred_nonneg by assumption.
  replace (r <? 0)%Z with false by (symmetry; apply Z.ltb_ge; lia).
  replace (c <? 0)%Z with false by (symmetry; apply Z.ltb_ge; lia).
  cbn [orb].
  destruct (Z.of_nat (length (flatten X)) =? r * c)%Z eqn:E; [|discriminate].
  apply Z.eqb_eq in E. intro H; inversion H; subst. auto.
Qed.

Lemma reshape_size :
  forall X r c X',
    (0 <= r)%Z -> (0 <= c)%Z -> reshape X r c = Ret X' ->
    Z.of_nat (length (flatten X)) = (r * c)%Z /\
    X' = chunks (Z.to_nat c) (flatten X) (Z.to_nat r).
Proof. intros X r c X'. apply reshape_in_size. Qed.

Lemma reshape_wrong_size :
  forall X r c,
    (0 <= r)%Z -> (0 <= c)%Z ->
    Z.of_nat (length (flatten X)) <> (r * c)%Z ->
    reshape X r c = Raise OperandError.
Proof.
  intros X r c Hr Hc Hn. unfold reshape, reshape_in, reshape_dims, inferred.
  replace (r <? 0)%Z with false by (symmetry; apply Z.ltb_ge; lia).
  replace (c <? 0)%Z with false by (symmetry; apply Z.ltb_ge; lia).
  cbn [orb].
  replace (Z.of_nat (length (flatten X)) =? r * c)%Z with false
    by (symmetry; apply Z.eqb_neq; exact Hn).
  reflexivity.
Qed.

Lemma flatten_reshape :
  forall (m : matrix) (r c : Z),
    (0 <= r)%Z -> (0 <= c)%Z -> length m = Z.to_nat r ->
    (forall row, In row m -> length row = Z.to_nat c) ->
    reshape m 1 (r * c) = Ret [flatten m] /\
    reshape [flatten m] r c = Ret m.
Proof.
  intros m r c Hr Hc Hrows Hcols.
  assert (Hn : Z.of_nat (length (flatten m)) = (r * c)%Z).
  { unfold flatten. rewrite (length_concat_rows _ Hcols), Hrows. nia. }
  split.
  - unfold reshape, reshape_in, reshape_dims, inferred.
    change (1 <? 0)%Z with false. cbv iota.
    replace (r * c <? 0)%Z with false by (symmetry; apply Z.ltb_ge; nia).
    cbn [orb]. rewrite Hn.
    replace (r * c =? 1 * (r * c))%Z with true
      by (symmetry; apply Z.eqb_eq; lia).
    simpl. replace (Z.to_nat (r * c)) with (length (flatten m)) by lia.
    rewrite firstn_all. reflexivity.
  - unfold reshape, reshape_in, reshape_dims, inferred.
    replace (r <? 0)%Z with false by (symmetry; apply Z.ltb_ge; lia).
    replace (c <? 0)%Z with false by (symmetry; apply Z.ltb_ge; lia).
    cbn [orb]. unfold flatten at 1. simpl concat. rewrite app_nil_r.
    fold (flatten m). rewrite Hn, Z.eqb_refl.
    f_equal. rewrite <- Hrows. unfold flatten at 1. simpl concat.
    rewrite app_nil_r. apply chunks_concat. exact Hcols.
Qed.

End ArrayFacts.

(* ================================================================== *)
(** * basis.py: the Fourier family *)

Module BasisFacts.

Import Basis.

Section Fourier.
Context {LM : Libm}.

(** At index 1 the factor [(p - 1) * np.pi] is [0 * np.pi], a zero; its
    product with a finite [t] is a zero, with an infinity or nan it is
    nan. *)
Lemma fourier_index_one :
  forall t, fourier t 1 = Ret (np_sin (fmul zero t)).
Proof. intro t. reflexivity. Qed.

Lemma zero_times_finite :
  forall t, is_finite t = true -> fmul zero t = S754_zero (signbit t).
Proof. intros [s|s| |s m e] H; try discriminate H; reflexivity. Qed.

Lemma zero_times_not_finite :
  forall t, is_finite t = false -> fmul zero t = nan.
Proof. intros [s|s| |s m e] H; try discriminate H; reflexivity. Qed.

(** For an infinite [t] and for nan, [fourier(t, 1)] is nan, whatever the
    routine behind [np.sin] is. *)
Lemma fourier_index_one_not_finite :
  forall t, is_finite t = false -> fourier t 1 = Ret nan.
Proof.
  intros t H. rewrite fourier_index_one, (zero_times_not_finite _ H).
  rewrite sin_of_nan. reflexivity.
Qed.

End Fourier.

(** C10, as stated, fails for an argument that is not finite:
    [fourier(np.inf, 1)] is [sin(0 * inf)], the sine of nan, which is nan;
    nan is not a zero and [nan == 0] is false. *)
Lemma fourier_index_one_at_infinity :
  @fourier Reference.libm inf 1 = Ret nan /\
  is_zero nan = false /\ feq nan zero = false /\
  ~ (exists s, @fourier Reference.libm inf 1 = Ret (S754_zero s)).
Proof.
  split; [reflexivity|]. split; [reflexivity|]. split; [reflexivity|].
  intros [s H]. discriminate H.
Qed.

(** C10, amended.  For every finite [t], [fourier(t, 1)] is a zero: index 1
    is odd, the function evaluates [sin((1 - 1) * pi * t)], the product
    [0 * pi * t] is a zero with the sign of [t], and the sine of a zero is
    that zero. *)
Theorem fourier_index_one_is_zero_at_finite_arguments :
  forall (LM : Libm) (t : float64),
    is_finite t = true -> fourier t 1 = Ret (S754_zero (signbit t)).
Proof.
  intros LM t H. rewrite fourier_index_one, (zero_times_finite _ H).
  rewrite sin_of_zero. reflexivity.
Qed.

Lemma fourier_index_one_is_zero_at_finite_arguments_witness :
  is_finite (fdiv one (of_Z 3)) = true /\
  @fourier Reference.libm (fdiv one (of_Z 3)) 1 = Ret zero.
Proof.
  split; [reflexivity|].
  exact (@fourier_index_one_is_zero_at_finite_arguments Reference.libm
           (fdiv one (of_Z 3)) eq_refl).
Defined.

End BasisFacts.

(* ================================================================== *)
(** * cordex_continuous_parallel.py: the sequential run *)

Module CordexFacts.

Import Cordex.
Local Open Scope py_scope.

Section Run.
Context {LA : Linalg} {SD : StartDesign} {MZ : Minimizer}.
Variable c : config.

Lemma range_empty : forall n, (0 <? n)%Z = false -> range n = [].
Proof.
  intros n H. apply Z.ltb_ge in H. unfold range.
  replace (Z.to_nat n) with O by lia. reflexivity.
Qed.

Lemma range_first :
  forall n, (0 <? n)%Z = true -> range n = O :: seq 1 (Z.to_nat n - 1).
Proof.
  intros n H. apply Z.ltb_lt in H. unfold range.
  destruct (Z.to_nat n) as [|k] eqn:E; [lia|].
  simpl. now rewrite Nat.sub_0_r.
Qed.

(** The sequential scheduler calls [run_epoch(None)]; unpacking [None]
    fails before anything else happens. *)
Lemma epochs_of_None :
  forall (l : list nat) fr,
    for_each l (fun _ => run_epoch c None) fr =
    (match l with [] => Ret tt | _ :: _ => Raise TypeError end, fr).
Proof. intros [|x l] fr; reflexivity. Qed.

(** As long as [Model_mat] is [None] a round of the final pass stops at
    [Model_mat.shape]. *)
Lemma final_rounds_of_None :
  forall (l : list nat) fr,
    Model_mat fr = None ->
    for_each l (fun _ => final_pass_round c) fr =
    (match l with [] => Ret tt | _ :: _ => Raise AttributeError end, fr).
Proof.
  intros [|x l] fr H; [reflexivity|].
  simpl. unfold bind, final_pass_round, bind, final_sweep, bind, read.
  rewrite H. reflexivity.
Qed.

(** Every outcome of the sequential run, in the order in which the code
    decides it; in each case the frame is still the initial one: no start
    design was drawn, no coordinate optimised, no criterion evaluated. *)
Lemma cordex_continuous_sequential :
  cordex_continuous c =
  (if negb (mem_string (method c) valid_methods)
   then Raise (ValueError InvalidMethod)
   else if (runs c <? len_Z (f_list c) + scalars c)%Z
   then Raise (ValueError NotEstimable)
   else if (runs c <? 0)%Z then Raise OperandError
   else if (0 <? epochs c)%Z then Raise TypeError
   else if final_pass c && (0 <? final_pass_iter c)%Z
   then Raise AttributeError
   else Ret (None, inf),
   initial_frame).
Proof.
  unfold cordex_continuous, cordex_continuous_from.
  destruct (negb (mem_string (method c) valid_methods)); [reflexivity|].
  destruct (runs c <? len_Z (f_list c) + scalars c)%Z; [reflexivity|].
  unfold bind at 1. unfold lift, ones.
  destruct (runs c <? 0)%Z; [reflexivity|].
  unfold bind at 1. rewrite epochs_of_None.
  destruct (0 <? epochs c)%Z eqn:He.
  - rewrite (range_first _ He). reflexivity.
  - rewrite (range_empty _ He).
    unfold bind at 1.
    destruct (final_pass c); simpl.
    + rewrite final_rounds_of_None by reflexivity.
      destruct (0 <? final_pass_iter c)%Z eqn:Hf.
      * rewrite (range_first _ Hf). reflexivity.
      * rewrite (range_empty _ Hf). reflexivity.
    + reflexivity.
Qed.

(** ** The Best-Result Pair and [run_epoch] *)

Import Invariants.

Lemma same_best_refl : forall fr, same_best fr fr.
Proof. split; reflexivity. Qed.

Lemma same_best_trans :
  forall a b d, same_best a b -> same_best b d -> same_best a d.
Proof. unfold same_best; intros a b d [H1 H2] [H3 H4]; split; congruence. Qed.

Lemma keeps_ret : forall A (a : A), keeps_best (ret a).
Proof. intros A a fr; apply same_best_refl. Qed.

Lemma keeps_raise : forall A e, keeps_best (@raise A e).
Proof. intros A e fr; apply same_best_refl. Qed.

Lemma keeps_lift : forall A (o : outcome A), keeps_best (lift o).
Proof. intros A o fr; apply same_best_refl. Qed.

Lemma keeps_read : forall A (f : frame -> A), keeps_best (read f).
Proof. intros A f fr; apply same_best_refl. Qed.

Lemma keeps_index_error : forall A (o : option A), keeps_best (index_error o).
Proof. intros A [a|] fr; apply same_best_refl. Qed.

Lemma keeps_update :
  forall f, (forall fr, same_best fr (f fr)) -> keeps_best (update f).
Proof. intros f H fr; apply H. Qed.

Lemma keeps_bind :
  forall A B (m : M A) (k : A -> M B),
    keeps_best m -> (forall a, keeps_best (k a)) -> keeps_best (bind m k).
Proof.
  intros A B m k Hm Hk fr. unfold bind.
  specialize (Hm fr). destruct (m fr) as [[a|e] fr1]; simpl in *.
  - eapply same_best_trans; [exact Hm | apply Hk].
  - exact Hm.
Qed.

Lemma keeps_finally :
  forall A (m : M A) h,
    keeps_best m -> (forall fr, same_best fr (h fr)) -> keeps_best (finally m h).
Proof.
  intros A m h Hm Hh fr. unfold finally.
  specialize (Hm fr). destruct (m fr) as [o fr1]; simpl in *.
  eapply same_best_trans; [exact Hm | apply Hh].
Qed.

Lemma keeps_for_fold :
  forall A S (body : A -> S -> M S),
    (forall a s, keeps_best (body a s)) ->
    forall xs s, keeps_best (for_fold xs body s).
Proof.
  intros A S body Hb xs; induction xs as [|x xs IH]; intro s; simpl.
  - apply keeps_ret.
  - apply keeps_bind; [apply Hb | intro; apply IH].
Qed.

Ltac keeps_step :=
  match goal with
  | |- keeps_best (bind _ _) => apply keeps_bind; [| intro]
  | |- keeps_best (ret _) => apply keeps_ret
  | |- keeps_best (raise _) => apply keeps_raise
  | |- keeps_best (lift _) => apply keeps_lift
  | |- keeps_best (read _) => apply keeps_read
  | |- keeps_best (index_error _) => apply keeps_index_error
  | |- keeps_best (update _) =>
      apply keeps_update; intro; split; reflexivity
  | |- keeps_best (finally _ _) =>
      apply keeps_finally; [| intro; split; reflexivity]
  | |- keeps_best (match ?x with _ => _ end) => destruct x
  end.

Lemma keeps_objective : forall x, keeps_best (objective c x).
Proof.
  intro x. unfold objective.
  apply keeps_bind; [keeps_step | intros _].
  apply keeps_bind; [keeps_step | intro mm].
  apply keeps_bind.
  { intro fr. destruct (run fr); apply same_best_refl. }
  intro r. apply keeps_bind.
  { intro fr. destruct (feat fr); apply same_best_refl. }
  intro f. repeat keeps_step.
Qed.

Lemma keeps_minimize_loop :
  forall f, (forall x, keeps_best (f x)) ->
  forall fuel x0 hist, keeps_best (minimize_loop c fuel f x0 hist).
Proof.
  intros f Hf fuel; induction fuel as [|k IH]; intros x0 hist; simpl;
    destruct (next_step (method c) x0 hist); try apply keeps_ret.
  apply keeps_bind; [apply Hf | intro; apply IH].
Qed.

Lemma keeps_minimize :
  forall f x0, (forall x, keeps_best (f x)) -> keeps_best (minimize c f x0).
Proof.
  intros f x0 Hf. unfold minimize.
  apply keeps_bind; [apply Hf | intro; apply keeps_minimize_loop; exact Hf].
Qed.

Lemma keeps_epoch_cell :
  forall r f st, keeps_best (epoch_cell c r f st).
Proof.
  intros r f st. unfold epoch_cell.
  apply keeps_bind; [keeps_step | intros _].
  apply keeps_bind; [keeps_step | intro x0].
  apply keeps_bind; [apply keeps_minimize, keeps_objective | intro res_x].
  apply keeps_bind; [repeat keeps_step | intro Model'].
  apply keeps_bind; [apply keeps_objective | intro; keeps_step].
Qed.

Lemma keeps_epoch_sweep : forall Model, keeps_best (epoch_sweep c Model).
Proof.
  intro Model. unfold epoch_sweep.
  apply keeps_for_fold. intros r st.
  apply keeps_for_fold. intros f st'. apply keeps_epoch_cell.
Qed.

Lemma keeps_start_design : keeps_best (start_design c).
Proof. unfold start_design. repeat keeps_step. Qed.

Lemma keeps_with_update_lock :
  forall A (body : M A), keeps_best body -> keeps_best (with_update_lock body).
Proof.
  intros A body H. unfold with_update_lock.
  apply keeps_bind.
  - intro fr. unfold acquire. destruct (lock_held fr); split; reflexivity.
  - intros _. apply keeps_finally; [exact H | intro; split; reflexivity].
Qed.

(** No call of [run_epoch] changes the Best-Result Pair of
    [cordex_continuous], whatever the argument, the frame and the
    collaborators: lines 131-132 bind names of [run_epoch] itself. *)
Lemma run_epoch_keeps_best : forall args, keeps_best (run_epoch c args).
Proof.
  intros [[u e]|]; simpl; [|apply keeps_raise].
  apply keeps_with_update_lock.
  apply keeps_bind; [apply keeps_start_design | intro Model].
  apply keeps_bind; [apply keeps_epoch_sweep | intro st].
  apply keeps_bind; [keeps_step | intro ok].
  destruct ok; [|apply keeps_ret].
  apply keeps_with_update_lock.
  apply keeps_bind; [keeps_step | intro ok']. destruct ok'; apply keeps_ret.
Qed.

(** ** The first coordinate of an epoch *)

(** [objective] cannot run while [run] of [cordex_continuous] is
    unassigned. *)
Lemma objective_without_run :
  forall x fr, run fr = None -> fst (objective c x fr) = Raise NameError.
Proof.
  intros x fr H. unfold objective, bind, update, read. simpl. rewrite H.
  reflexivity.
Qed.

Lemma epoch_cell_NameError :
  forall r f st x0 fr,
    run fr = None -> get (fst st) r f = Some x0 ->
    fst (epoch_cell c r f st fr) = Raise NameError.
Proof.
  intros r f st x0 fr Hrun Hget.
  unfold epoch_cell. unfold bind at 1. unfold update at 1.
  unfold bind at 1. rewrite Hget. unfold index_error at 1, ret at 1.
  unfold bind at 1. unfold minimize. unfold bind at 1.
  pose proof (objective_without_run (first_trial (method c) x0)
                (with_event (EvMinimize r f) fr) Hrun) as H.
  destruct (objective c (first_trial (method c) x0)
              (with_event (EvMinimize r f) fr)) as [o fr'].
  simpl in H. subst o. reflexivity.
Qed.

(** An epoch that is given a lock and an index, as the pool would give it,
    stops in the first one-dimensional optimisation. *)
Lemma run_epoch_stops_at_first_coordinate :
  forall e fr Model fr1 x0,
    lock_held fr = false ->
    (0 <? runs c)%Z = true ->
    (0 <? f_coeffs c + scalars c - 1)%Z = true ->
    start_design c (with_lock true fr) = (Ret Model, fr1) ->
    run fr1 = None ->
    get Model 0 0 = Some x0 ->
    fst (run_epoch c (Some (tt, e)) fr) = Raise NameError.
Proof.
  intros e fr Model fr1 x0 Hlock Hr Hf Hstart Hrun Hget.
  simpl. unfold with_update_lock at 1. unfold bind at 1, acquire at 1.
  rewrite Hlock. unfold finally. unfold bind at 1. rewrite Hstart.
  unfold bind at 1. unfold epoch_sweep.
  rewrite (range_first _ Hr). simpl for_fold. unfold bind at 1.
  rewrite (range_first _ Hf). simpl for_fold. unfold bind at 1.
  pose proof (@epoch_cell_NameError 0 0 (Model, inf) x0 fr1 Hrun Hget) as H.
  destruct (epoch_cell c 0 0 (Model, inf) fr1) as [o fr2].
  simpl in H. subst o. reflexivity.
Qed.

(** ** What the sequential run can return *)

(** Whenever the sequential run returns, it returns the pair it started
    with, and no epoch was run. *)
Lemma returns_only_the_initial_pair :
  forall d v,
    fst (cordex_continuous c) = Ret (d, v) ->
    d = None /\ v = inf /\ (0 <? epochs c)%Z = false.
Proof.
  intros d v. rewrite cordex_continuous_sequential. cbn [fst]. intro H.
  destruct (negb (mem_string (method c) valid_methods)); [discriminate H|].
  destruct (runs c <? len_Z (f_list c) + scalars c)%Z; [discriminate H|].
  destruct (runs c <? 0)%Z; [discriminate H|].
  destruct (0 <? epochs c)%Z; [discriminate H|].
  destruct (final_pass c && (0 <? final_pass_iter c)%Z); [discriminate H|].
  inversion H; auto.
Qed.

(** The estimability error is raised exactly when the method is valid and
    [runs < len(f_list) + scalars]. *)
Lemma not_estimable_iff :
  fst (cordex_continuous c) = Raise (ValueError NotEstimable) <->
  mem_string (method c) valid_methods = true /\
  (runs c < len_Z (f_list c) + scalars c)%Z.
Proof.
  rewrite cordex_continuous_sequential. cbn [fst].
  destruct (mem_string (method c) valid_methods); cbn [negb].
  - destruct (runs c <? len_Z (f_list c) + scalars c)%Z eqn:E.
    + apply Z.ltb_lt in E. tauto.
    + apply Z.ltb_ge in E.
      destruct (runs c <? 0)%Z; [|destruct (0 <? epochs c)%Z;
        [|destruct (final_pass c && (0 <? final_pass_iter c)%Z)]];
        (split; [discriminate | intros [_ H]; lia]).
  - split; [discriminate | intros [H _]; discriminate].
Qed.

(** The error for an invalid criterion never leaves the sequential run. *)
Lemma never_invalid_criterion :
  fst (cordex_continuous c) <> Raise (ValueError InvalidCriterion).
Proof.
  rewrite cordex_continuous_sequential. cbn [fst]. intro H.
  destruct (negb (mem_string (method c) valid_methods)); [discriminate H|].
  destruct (runs c <? len_Z (f_list c) + scalars c)%Z; [discriminate H|].
  destruct (runs c <? 0)%Z; [discriminate H|].
  destruct (0 <? epochs c)%Z; [discriminate H|].
  destruct (final_pass c && (0 <? final_pass_iter c)%Z); discriminate H.
Qed.

Lemma madd_raises_OperandError :
  forall a b e, madd a b = Raise e -> e = OperandError.
Proof.
  intros a b e. unfold madd.
  destruct (broadcast (nrows a) (nrows b));
    [destruct (broadcast (ncols a) (ncols b))|];
    intro H; try discriminate H; now inversion H.
Qed.

Lemma P_of_raises_OperandError :
  forall Mu e, P_of c Mu = Raise e -> e = OperandError.
Proof.
  intros Mu e. unfold P_of.
  destruct (R_0 c) as [R|]; destruct (feq (ridge_pen c) zero);
    try apply madd_raises_OperandError; try discriminate.
  destruct (madd Mu (smul (smooth_pen c) R)) as [S|e'] eqn:E; cbn [obind].
  - apply madd_raises_OperandError.
  - intro H; inversion H; subst. eapply madd_raises_OperandError; exact E.
Qed.

(** [objective] looks at the name of the criterion only after the matrices
    are built and P is inverted. *)
Lemma invalid_criterion_after_inversion :
  forall Mu,
    criterion_of c Mu = Raise (ValueError InvalidCriterion) ->
    exists P P_inv, P_of c Mu = Ret P /\ linalg_inv P = Some P_inv.
Proof.
  intros Mu. unfold criterion_of. intro H.
  destruct (P_of c Mu) as [P|e] eqn:EP; cbn [obind] in H;
    [|inversion H; subst; apply P_of_raises_OperandError in EP; discriminate EP].
  destruct (linalg_inv P) as [P_inv|] eqn:EI; [|discriminate H].
  exists P, P_inv. split; [reflexivity | exact EI].
Qed.

(** ** [objective] against the specification's evaluator *)

(** With its three variables bound, [objective(x)] stores [x] at
    [(run, feat)] and evaluates the design so changed. *)
Lemma objective_evaluates_updated_design :
  forall x fr m r f m',
    Model_mat fr = Some m -> run fr = Some r -> feat fr = Some f ->
    set m r f x = Some m' ->
    objective c x fr =
    (obind (Mu_of c m') (criterion_of c),
     with_Model_mat (Some m') (with_event (EvCriterion x) fr)).
Proof.
  intros x fr m r f m' Hm Hr Hf Hset.
  unfold objective, bind, update, read, raise, lift.
  cbn [with_event Model_mat run feat]. rewrite Hr. cbn [feat with_event].
  rewrite Hf, Hm, Hset. reflexivity.
Qed.

(** The rows of Z: for each run the entry 1, the first [sum(f_list) + 1]
    entries of the run multiplied by [J_cb], and the remaining entries of
    the run. *)
Lemma Zetta_rows :
  forall Model Z,
    Zetta_of c Model = Ret Z ->
    exists J,
      J_cb c = Some J /\
      length Model = Z.to_nat (runs c) /\
      Z = map (fun row =>
                 let k := cut (sum_Z (f_list c) + 1) (length row) in
                 Spec.regressor_row (Some J) (firstn k row) (skipn k row))
              Model.
Proof.
  intros Model Z. unfold Zetta_of, f_coeffs.
  destruct (J_cb c) as [J|]; [|intro H; discriminate H].
  destruct (matmul _ J) as [GJ|e] eqn:EG; cbn [obind];
    [|intro H; discriminate H].
  apply ArrayFacts.matmul_rows in EG.
  destruct (hcat _ GJ) as [Z1|e] eqn:E1; cbn [obind];
    [|intro H; discriminate H].
  apply ArrayFacts.hcat_rows in E1. destruct E1 as [L1 E1].
  intro H. apply ArrayFacts.hcat_rows in H. destruct H as [L2 H].
  rewrite repeat_length in L1.
  assert (LG : length GJ = length Model).
  { rewrite EG. unfold cols_to. now rewrite !length_map. }
  exists J. split; [reflexivity|]. split; [congruence|].
  subst Z. subst Z1.
  rewrite L1, ArrayFacts.combine_repeat. subst GJ. unfold cols_to, cols_from.
  rewrite !map_map. rewrite ArrayFacts.combine_map_map, map_map.
  apply map_ext. intro row. cbn [fst snd]. unfold Spec.regressor_row.
  rewrite <- app_assoc. reflexivity.
Qed.

Lemma Mu_of_entries :
  forall Model Mu,
    Mu_of c Model = Ret Mu ->
    exists J,
      J_cb c = Some J /\
      length Model = Z.to_nat (runs c) /\
      Mu = Spec.products_of_columns
             (map (fun row =>
                     let k := cut (sum_Z (f_list c) + 1) (length row) in
                     Spec.regressor_row (Some J) (firstn k row) (skipn k row))
                  Model).
Proof.
  intros Model Mu. unfold Mu_of.
  destruct (Zetta_of c Model) as [Z|e] eqn:EZ; cbn [obind];
    [|intro H; discriminate H].
  rewrite ArrayFacts.information_products.
  intro H. inversion H; subst Mu; clear H.
  destruct (Zetta_rows _ EZ) as [J [HJ [HL HZ]]].
  exists J. split; [exact HJ|]. split; [exact HL|]. f_equal. exact HZ.
Qed.

Lemma P_of_refines_spec :
  forall Mu,
    P_of c Mu = Spec.spec_P Mu (R_0 c) (smooth_pen c) (ridge_pen c).
Proof.
  intro Mu. unfold P_of, Spec.spec_P, Spec.configured_terms.
  destruct (R_0 c) as [R|]; destruct (feq (ridge_pen c) zero); reflexivity.
Qed.

Lemma kind_of_D : forall s, Spec.kind_of s = Some Spec.KD ->
  String.eqb s "D" = true.
Proof.
  intros s. unfold Spec.kind_of.
  destruct (String.eqb s "D"); [reflexivity|].
  destruct (String.eqb s "A"); [discriminate|].
  destruct (String.eqb s "E"); [discriminate|].
  destruct (String.eqb s "I"); discriminate.
Qed.

Lemma kind_of_A : forall s, Spec.kind_of s = Some Spec.KA ->
  String.eqb s "D" = false /\ String.eqb s "A" = true.
Proof.
  intros s. unfold Spec.kind_of.
  destruct (String.eqb s "D"); [discriminate|].
  destruct (String.eqb s "A"); [auto|].
  destruct (String.eqb s "E"); [discriminate|].
  destruct (String.eqb s "I"); discriminate.
Qed.

Lemma kind_of_E : forall s, Spec.kind_of s = Some Spec.KE ->
  String.eqb s "D" = false /\ String.eqb s "A" = false /\
  String.eqb s "E" = true.
Proof.
  intros s. unfold Spec.kind_of.
  destruct (String.eqb s "D"); [discriminate|].
  destruct (String.eqb s "A"); [discriminate|].
  destruct (String.eqb s "E"); [auto|].
  destruct (String.eqb s "I"); discriminate.
Qed.

Lemma kind_of_I : forall s, Spec.kind_of s = Some Spec.KI ->
  String.eqb s "D" = false /\ String.eqb s "A" = false /\
  String.eqb s "E" = false /\ String.eqb s "I" = true.
Proof.
  intros s. unfold Spec.kind_of.
  destruct (String.eqb s "D"); [discriminate|].
  destruct (String.eqb s "A"); [discriminate|].
  destruct (String.eqb s "E"); [discriminate|].
  destruct (String.eqb s "I"); [auto|discriminate].
Qed.

(** For D and A [objective] returns the value of the sign table for a
    minimising search, computed on the sandwich matrix. *)
Lemma cordex_criterion_refines_spec :
  forall Mu k P P_inv Mstar v,
    Spec.kind_of (optimality c) = Some k ->
    k = Spec.KD \/ k = Spec.KA ->
    Spec.spec_P Mu (R_0 c) (smooth_pen c) (ridge_pen c) = Ret P ->
    linalg_inv P = Some P_inv ->
    Spec.sandwich P_inv Mu = Ret Mstar ->
    Spec.internal_value Spec.Minimising k Mstar Mu = Some v ->
    criterion_of c Mu = Ret v.
Proof.
  intros Mu k P P_inv Mstar v Hk Hor HP Hinv Hs Hv.
  unfold criterion_of. rewrite P_of_refines_spec, HP. cbn [obind].
  rewrite Hinv. unfold Spec.sandwich in Hs.
  destruct (matmul P_inv Mu) as [PM|e]; cbn [obind] in *; [|discriminate Hs].
  rewrite Hs. cbn [obind].
  unfold Spec.internal_value, Spec.natural_value in Hv.
  destruct Hor; subst k.
  - rewrite (kind_of_D _ Hk).
    destruct (linalg_det Mstar); cbn in Hv; [|discriminate Hv].
    inversion Hv; reflexivity.
  - destruct (kind_of_A _ Hk) as [HD HA]. rewrite HD, HA.
    destruct (linalg_inv Mstar); cbn in Hv; [|discriminate Hv].
    inversion Hv; reflexivity.
Qed.

(** Every other criterion, E and I included, is refused. *)
Lemma cordex_criterion_refuses_others :
  forall Mu P P_inv Mstar,
    String.eqb (optimality c) "D" = false ->
    String.eqb (optimality c) "A" = false ->
    P_of c Mu = Ret P ->
    linalg_inv P = Some P_inv ->
    Spec.sandwich P_inv Mu = Ret Mstar ->
    criterion_of c Mu = Raise (ValueError InvalidCriterion).
Proof.
  intros Mu P P_inv Mstar HD HA HP Hinv Hs.
  unfold criterion_of. rewrite HP. cbn [obind]. rewrite Hinv.
  unfold Spec.sandwich in Hs.
  destruct (matmul P_inv Mu) as [PM|e]; cbn [obind] in *; [|discriminate Hs].
  rewrite Hs. cbn [obind]. rewrite HD, HA. reflexivity.
Qed.

(** ** The value for a singular matrix *)

(** When the determinant or the inverse of the sandwich matrix raises,
    [objective] returns nan. *)
Lemma failed_sandwich_gives_nan :
  forall Mu P P_inv Mstar,
    P_of c Mu = Ret P ->
    linalg_inv P = Some P_inv ->
    Spec.sandwich P_inv Mu = Ret Mstar ->
    (String.eqb (optimality c) "D" = true /\ linalg_det Mstar = None) \/
    (String.eqb (optimality c) "D" = false /\
     String.eqb (optimality c) "A" = true /\ linalg_inv Mstar = None) ->
    criterion_of c Mu = Ret nan.
Proof.
  intros Mu P P_inv Mstar HP Hinv Hs H.
  unfold criterion_of. rewrite HP. cbn [obind]. rewrite Hinv.
  unfold Spec.sandwich in Hs.
  destruct (matmul P_inv Mu) as [PM|e]; cbn [obind] in *; [|discriminate Hs].
  rewrite Hs. cbn [obind].
  destruct H as [[HD Hd]|[HD [HA Hi]]].
  - rewrite HD, Hd. reflexivity.
  - rewrite HD, HA, Hi. reflexivity.
Qed.

(** When P cannot be inverted, [objective] returns nan. *)
Lemma singular_P_gives_nan :
  forall Mu P,
    P_of c Mu = Ret P -> linalg_inv P = None -> criterion_of c Mu = Ret nan.
Proof.
  intros Mu P HP Hinv. unfold criterion_of. rewrite HP. cbn [obind].
  rewrite Hinv. reflexivity.
Qed.

(** nan is never accepted as the running best. *)
Lemma check_refuses_nan : forall fr, check c nan fr = false.
Proof.
  intro fr. unfold check.
  destruct (mem_string (optimality c) ["A"%string]).
  - rewrite FloatFacts.flt_nan_r. reflexivity.
  - destruct (mem_string (optimality c) ["D"%string]); [|reflexivity].
    rewrite FloatFacts.flt_nan_l. reflexivity.
Qed.

(** ** The final pass *)

Lemma keeps_final_cell : keeps_best (final_cell c).
Proof.
  unfold final_cell.
  apply keeps_bind; [keeps_step | intro mm].
  apply keeps_bind; [keeps_step | intro r].
  apply keeps_bind; [keeps_step | intro f].
  destruct mm as [m|]; [|apply keeps_raise].
  destruct r as [r|]; [|apply keeps_raise].
  destruct f as [f|]; [|apply keeps_raise].
  apply keeps_bind; [keeps_step | intros _].
  apply keeps_bind; [keeps_step | intro x0].
  apply keeps_bind; [apply keeps_minimize, keeps_objective | intro res_x].
  apply keeps_bind; [keeps_step | intro m1].
  apply keeps_bind; [keeps_step | intro m2].
  apply keeps_bind; [keeps_step | intros _].
  apply keeps_objective.
Qed.

Lemma keeps_final_sweep : keeps_best (final_sweep c).
Proof.
  unfold final_sweep.
  apply keeps_bind; [keeps_step | intro mm].
  destruct mm as [m|]; [|apply keeps_raise].
  apply keeps_for_fold. intros r ov.
  apply keeps_bind; [keeps_step | intros _].
  apply keeps_bind; [keeps_step | intro m'].
  destruct m' as [m'|]; [|apply keeps_raise].
  apply keeps_for_fold. intros f ov'.
  apply keeps_bind; [keeps_step | intros _].
  apply keeps_final_cell.
Qed.

Lemma bind_returns :
  forall A B (m : M A) (k : A -> M B) fr b fr',
    bind m k fr = (Ret b, fr') ->
    exists a fr1, m fr = (Ret a, fr1) /\ k a fr1 = (Ret b, fr').
Proof.
  intros A B m k fr b fr'. unfold bind.
  destruct (m fr) as [[a|e] fr1]; intro H; [|discriminate H].
  exists a, fr1. auto.
Qed.

(** What [objective] returns is the criterion value of the design it
    leaves in [Model_mat]. *)
Lemma objective_evaluates :
  forall x fr v fr', objective c x fr = (Ret v, fr') -> evaluates c v fr'.
Proof.
  intros x fr v fr'. unfold objective, bind, update, read, raise, lift.
  cbn [with_event Model_mat run feat].
  destruct (run fr) as [r|]; [|intro H; discriminate H].
  cbn [with_event feat].
  destruct (feat fr) as [f|]; [|intro H; discriminate H].
  destruct (Model_mat fr) as [m|]; [|intro H; discriminate H].
  destruct (set m r f x) as [m'|]; [|intro H; discriminate H].
  intro H. inversion H; subst; clear H.
  exists m'. split; [reflexivity | assumption].
Qed.

Lemma final_cell_evaluates :
  forall fr v fr', final_cell c fr = (Ret v, fr') -> evaluates c v fr'.
Proof.
  intros fr v fr'. unfold final_cell. intro H.
  apply bind_returns in H. destruct H as [mm [f1 [_ H]]].
  apply bind_returns in H. destruct H as [r [f2 [_ H]]].
  apply bind_returns in H. destruct H as [f [f3 [_ H]]].
  destruct mm as [m|]; [|discriminate H].
  destruct r as [r|]; [|discriminate H].
  destruct f as [f|]; [|discriminate H].
  apply bind_returns in H. destruct H as [u [f4 [_ H]]].
  apply bind_returns in H. destruct H as [x0 [f5 [_ H]]].
  apply bind_returns in H. destruct H as [res_x [f6 [_ H]]].
  apply bind_returns in H. destruct H as [m1 [f7 [_ H]]].
  apply bind_returns in H. destruct H as [m2 [f8 [_ H]]].
  apply bind_returns in H. destruct H as [u' [f9 [_ H]]].
  eapply objective_evaluates; exact H.
Qed.

Lemma for_fold_invariant :
  forall A S (P : S -> frame -> Prop) (body : A -> S -> M S),
    (forall a s fr s' fr', P s fr -> body a s fr = (Ret s', fr') -> P s' fr') ->
    forall xs s fr s' fr',
      P s fr -> for_fold xs body s fr = (Ret s', fr') -> P s' fr'.
Proof.
  intros A S P body Hb xs; induction xs as [|x xs IH]; intros s fr s' fr' HP H.
  - inversion H; subst. exact HP.
  - simpl in H. apply bind_returns in H. destruct H as [s1 [fr1 [H1 H2]]].
    eapply IH; [|exact H2]. eapply Hb; eassumption.
Qed.

(** The value of a sweep of the final pass is the initial [np.inf], or the
    criterion value of the design that [Model_mat] holds after the sweep. *)
Lemma final_sweep_value :
  forall fr v fr',
    final_sweep c fr = (Ret v, fr') -> v = inf \/ evaluates c v fr'.
Proof.
  intros fr v fr'. unfold final_sweep. intro H.
  apply bind_returns in H. destruct H as [mm [f1 [_ H]]].
  destruct mm as [m|]; [|discriminate H].
  revert H.
  apply (@for_fold_invariant nat float64
           (fun v fr => v = inf \/ evaluates c v fr)); [|left; reflexivity].
  clear. intros r ov fr ov' fr' HP H.
  apply bind_returns in H. destruct H as [u [f1 [H1 H]]].
  apply bind_returns in H. destruct H as [m' [f2 [H2 H]]].
  destruct m' as [m'|]; [|discriminate H].
  revert H.
  apply (@for_fold_invariant nat float64
           (fun v fr => v = inf \/ evaluates c v fr)).
  - intros f s fr0 s' fr0' _ H.
    apply bind_returns in H. destruct H as [u' [f3 [_ H]]].
    right. eapply final_cell_evaluates; exact H.
  - inversion H1; subst; clear H1. inversion H2; subst; clear H2.
    destruct HP as [HP|[m [Hm Hv]]]; [left; exact HP|].
    right. exists m. split; [exact Hm | exact Hv].
Qed.

Lemma check_refuses_inf : forall fr, check c inf fr = false.
Proof.
  intro fr. unfold check.
  destruct (mem_string (optimality c) ["A"%string]).
  - rewrite FloatFacts.nothing_above_inf. apply andb_false_r.
  - destruct (mem_string (optimality c) ["D"%string]); reflexivity.
Qed.

Lemma check_accepts_numbers :
  forall v fr, check c v fr = true -> is_nan v = false.
Proof.
  intros v fr H. destruct v; try reflexivity.
  change S754_nan with nan in H. rewrite check_refuses_nan in H. discriminate H.
Qed.

Lemma check_reads_Best_obj :
  forall v fr fr', Best_obj fr' = Best_obj fr -> check c v fr' = check c v fr.
Proof. intros v fr fr' H. unfold check. rewrite H. reflexivity. Qed.

(** Lines 159-168, from any frame: a round of the final pass leaves the
    stored pair as it was, or replaces both of its parts, by the array that
    [Model_mat] names and by a value that [check] accepted and that is the
    criterion value of that array. *)
Lemma final_pass_round_replaces_both :
  forall fr,
    let fr' := snd (final_pass_round c fr) in
    same_best fr fr' \/
    (Best_des fr' = RefModelMat /\
     check c (Best_obj fr') fr = true /\
     evaluates c (Best_obj fr') fr').
Proof.
  intro fr. cbv zeta.
  pose proof (keeps_final_sweep fr) as Hk.
  destruct (final_pass_round c fr) as [o fr'] eqn:E. cbn [snd].
  unfold final_pass_round, bind, read, update, ret in E.
  destruct (final_sweep c fr) as [[v|e] fr1] eqn:Es; cbn [snd] in Hk;
    [|inversion E; subst; left; exact Hk].
  destruct (check c v fr1) eqn:Ec;
    [|inversion E; subst; left; exact Hk].
  inversion E; subst; clear E.
  right. cbn [with_Best Best_des Best_obj].
  split; [reflexivity|]. split.
  - rewrite <- Ec. symmetry. apply check_reads_Best_obj. apply Hk.
  - destruct (final_sweep_value _ Es) as [Hv|[m [Hm Hv]]].
    + subst v. rewrite check_refuses_inf in Ec. discriminate Ec.
    + exists m. split; [exact Hm | exact Hv].
Qed.

End Run.

End CordexFacts.

(* ================================================================== *)
(** * bayesian_opt.py: evaluator, rounds and result *)

Module BayesOptFacts.

Import BayesOpt.

Section Loop.
Context {LA : Linalg} {SU : Surrogate} {ID : InitialDesign}.
Variable c : config.

(** ** [objective] against the specification's evaluator *)

(** For each of the four kinds [objective] returns the value of the sign
    table for a maximising search, computed on M itself. *)
Lemma bo_criterion_refines_spec :
  forall M k v,
    Spec.kind_of (optimality c) = Some k ->
    Spec.internal_value Spec.Maximising k M M = Some v ->
    criterion_of c M = Ret v.
Proof.
  intros M k v Hk Hv. unfold criterion_of.
  unfold Spec.internal_value, Spec.natural_value in Hv.
  destruct k.
  - destruct (CordexFacts.kind_of_A _ Hk) as [HD HA]. rewrite HD, HA.
    destruct (linalg_inv M); cbn in Hv; [|discriminate Hv].
    inversion Hv; reflexivity.
  - rewrite (CordexFacts.kind_of_D _ Hk).
    destruct (linalg_det M); cbn in Hv; [|discriminate Hv].
    inversion Hv; reflexivity.
  - destruct (CordexFacts.kind_of_E _ Hk) as [HD [HA HE]]. rewrite HD, HA, HE.
    destruct (linalg_eigvals M) as [ev|]; cbn in Hv; [|discriminate Hv].
    destruct (amax ev); cbn in Hv; [|discriminate Hv].
    inversion Hv; reflexivity.
  - destruct (CordexFacts.kind_of_I _ Hk) as [HD [HA [HE HI]]].
    rewrite HD, HA, HE, HI.
    destruct (linalg_eigvals M) as [ev|]; cbn in Hv; [|discriminate Hv].
    destruct (amin ev); cbn in Hv; [|discriminate Hv].
    inversion Hv; reflexivity.
Qed.

(** The rows of Z and the entries of M: for each run the entry 1 and the
    entries of the run, multiplied by [J_cb] when there is one. *)
Lemma M_from_entries :
  forall X' M,
    M_from c X' = Ret M ->
    length X' = Z.to_nat (runs c) /\
    M = Spec.products_of_columns
          (map (fun row => match J_cb c with
                           | None => Spec.regressor_row None [] row
                           | Some J => Spec.regressor_row (Some J) row []
                           end) X').
Proof.
  intros X' M. unfold M_from.
  destruct (J_cb c) as [J|].
  - destruct (matmul X' J) as [XJ|e] eqn:EG; cbn [Cordex.obind];
      [|intro H; discriminate H].
    apply ArrayFacts.matmul_rows in EG.
    destruct (hcat _ XJ) as [Z|e] eqn:E1; cbn [Cordex.obind];
      [|intro H; discriminate H].
    apply ArrayFacts.hcat_rows in E1. destruct E1 as [L1 E1].
    rewrite repeat_length in L1.
    rewrite ArrayFacts.information_products.
    intro H; inversion H; subst M; clear H.
    assert (LG : length XJ = length X') by (rewrite EG; now rewrite length_map).
    split; [congruence|]. f_equal. subst Z.
    rewrite L1, ArrayFacts.combine_repeat. subst XJ. rewrite !map_map.
    apply map_ext. intro row. cbn [fst snd]. unfold Spec.regressor_row.
    rewrite app_nil_r. reflexivity.
  - destruct (hcat _ X') as [Z|e] eqn:E1; cbn [Cordex.obind];
      [|intro H; discriminate H].
    apply ArrayFacts.hcat_rows in E1. destruct E1 as [L1 E1].
    rewrite repeat_length in L1.
    rewrite ArrayFacts.information_products.
    intro H; inversion H; subst M; clear H.
    split; [congruence|]. f_equal. subst Z.
    rewrite L1, ArrayFacts.combine_repeat. rewrite !map_map.
    apply map_ext. intro row. reflexivity.
Qed.

(** A criterion that is none of the four kinds is refused when the first
    design is evaluated, after its information matrix was built. *)
Lemma bo_criterion_refuses_unknown :
  forall M, Spec.kind_of (optimality c) = None ->
            criterion_of c M = Raise (ValueError InvalidCriterion).
Proof.
  intros M. unfold Spec.kind_of, criterion_of.
  destruct (String.eqb (optimality c) "D"); [discriminate|].
  destruct (String.eqb (optimality c) "A"); [discriminate|].
  destruct (String.eqb (optimality c) "E"); [discriminate|].
  destruct (String.eqb (optimality c) "I"); [discriminate|reflexivity].
Qed.

(** ** The value for a singular matrix *)

Lemma singular_A : forall M,
  optimality c = "A"%string -> linalg_inv M = None ->
  criterion_of c M = Ret (fneg inf).
Proof.
  intros M Ho Hd. unfold criterion_of. rewrite Ho, Hd. reflexivity.
Qed.

Lemma singular_E : forall M,
  optimality c = "E"%string -> linalg_eigvals M = None ->
  criterion_of c M = Ret (fneg inf).
Proof.
  intros M Ho Hd. unfold criterion_of. rewrite Ho, Hd. reflexivity.
Qed.

Lemma singular_I : forall M,
  optimality c = "I"%string -> linalg_eigvals M = None ->
  criterion_of c M = Ret inf.
Proof.
  intros M Ho Hd. unfold criterion_of. rewrite Ho, Hd. reflexivity.
Qed.

(** ** One round and the Observation History *)

Lemma failing_round :
  forall epoch s,
    is_raise (gen_next_point c epoch (X_init s) (y_init s) (best_y_init s))
      = true ->
    bo_round c epoch s =
    Ret {| X_init := drop_last (X_init s); y_init := drop_last (y_init s);
           best_y_init := best_y_init s; epochs_list := epochs_list s |}.
Proof.
  intros epoch s H. unfold bo_round.
  destruct (gen_next_point c epoch (X_init s) (y_init s) (best_y_init s));
    [discriminate H | reflexivity].
Qed.

Lemma successful_round :
  forall epoch s s' cand,
    gen_next_point c epoch (X_init s) (y_init s) (best_y_init s) = Ret cand ->
    bo_round c epoch s = Ret s' ->
    exists v,
      objective_tensor c cand = Ret v /\
      X_init s' = X_init s ++ cand /\
      y_init s' = y_init s ++ [to_float32 v] /\
      epochs_list s' = epochs_list s ++ [(epoch, to_float32 v, cand)] /\
      amax (y_init s') = Ret (best_y_init s').
Proof.
  intros epoch s s' cand Hg. unfold bo_round. rewrite Hg.
  destruct (objective_tensor c cand) as [v|e]; cbn [Cordex.obind];
    [|intro H; discriminate H].
  unfold cat. destruct (forallb _ cand); cbn [Cordex.obind];
    [|intro H; discriminate H].
  destruct (amax (y_init s ++ [to_float32 v])) eqn:Em; cbn [Cordex.obind];
    [|intro H; discriminate H].
  intro H; inversion H; subst; clear H. exists v. cbn. auto.
Qed.

Lemma surrogate_failure_raises :
  (forall round X y, fit_gpytorch_model round X y = None) ->
  forall epoch X y b, is_raise (gen_next_point c epoch X y b) = true.
Proof.
  intros H epoch X y b. unfold gen_next_point. rewrite H. reflexivity.
Qed.

(** Rounds that all fail leave [epochs_list] as it was. *)
Lemma failing_rounds_record_nothing :
  (forall round X y, fit_gpytorch_model round X y = None) ->
  forall rounds s,
    exists s', bo_rounds c rounds s = Ret s' /\
               epochs_list s' = epochs_list s.
Proof.
  intros Hfail rounds; induction rounds as [|e rest IH]; intro s.
  - exists s. split; reflexivity.
  - cbn [bo_rounds].
    rewrite (failing_round e s (surrogate_failure_raises Hfail _ _ _ _)).
    cbn [Cordex.obind].
    destruct (IH {| X_init := drop_last (X_init s);
                    y_init := drop_last (y_init s);
                    best_y_init := best_y_init s;
                    epochs_list := epochs_list s |}) as [s' [H1 H2]].
    exists s'. split; [exact H1 | exact H2].
Qed.

Lemma initial_state_has_no_epochs :
  forall s0, initial_state c = Ret s0 -> epochs_list s0 = [].
Proof.
  intros s0. unfold initial_state, get_initial_data, get_initial_data_cordex.
  destruct (initialization_method c) as [m|].
  - destruct (J_cb c) as [J|]; [|discriminate].
    destruct (cordex_bootstrap _ _ _ _ _) as [p|]; cbn [Cordex.obind];
      [|discriminate].
    destruct (reshape (fst p) 1 (width c)) as [Xf|]; cbn [Cordex.obind];
      [|discriminate].
    destruct (objective c Xf); cbn [Cordex.obind]; [|discriminate].
    intro H; inversion H; reflexivity.
  - destruct (gen_rand_design _ _) as [X|]; cbn [Cordex.obind];
      [|discriminate].
    destruct (reshape X 1 (width c)) as [Xf|]; cbn [Cordex.obind];
      [|discriminate].
    destruct (objective c Xf); cbn [Cordex.obind]; [|discriminate].
    intro H; inversion H; reflexivity.
Qed.

(** When every round fails, the selection after the loop indexes an empty
    list. *)
Lemma all_rounds_failing :
  (forall round X y, fit_gpytorch_model round X y = None) ->
  forall s0, initial_state c = Ret s0 -> bo_loop c = Raise IndexError.
Proof.
  intros Hfail s0 H0. unfold bo_loop, bo_loop_state. rewrite H0.
  cbn [Cordex.obind].
  destruct (failing_rounds_record_nothing Hfail (range (epochs c)) s0)
    as [s' [H1 H2]].
  rewrite H1. cbn [Cordex.obind].
  rewrite H2, (initial_state_has_no_epochs H0). reflexivity.
Qed.

End Loop.

End BayesOptFacts.

(* ================================================================== *)
(** * The Criterion Evaluator *)

Module EvaluatorClaims.

Import Inputs.

(** The design with the two runs 1 and -1, flattened, as [bo_loop] passes
    it; its information matrix is [Mu22], with determinant 4. *)
Lemma information_of_two_runs :
  @BayesOpt.M_of (bo_call 1 "D" 1) [[one; fneg one]] = Ret Mu22.
Proof. vm_compute. reflexivity. Qed.

(** C1, as stated, fails on [bo_loop]'s evaluator: for D the claim lists
    the negated determinant, -4 for the design (1, -1), and [objective]
    returns 4. *)
Lemma bo_loop_determinant_is_not_negated :
  Spec.kind_of (BayesOpt.optimality (bo_call 1 "D" 1)) = Some Spec.KD /\
  @Spec.claimed_value Reference.linalg Spec.KD Mu22 Mu22
    = Some (fneg (of_Z 4)) /\
  @BayesOpt.objective Reference.linalg (bo_call 1 "D" 1) [[one; fneg one]]
    = Ret (of_Z 4) /\
  @BayesOpt.objective Reference.linalg (bo_call 1 "D" 1) [[one; fneg one]]
    <> Ret (fneg (of_Z 4)).
Proof.
  repeat split; try (vm_compute; reflexivity).
  vm_compute. intro H. discriminate H.
Qed.

(** C1, amended.  For a design with at least one run, both evaluators build
    Z run by run and form M = Z^T Z, the products of the columns of Z.  In
    [cordex_continuous] a row of Z is the entry 1, the first
    [sum(f_list) + 1] entries of the run multiplied by [J_cb], and the
    remaining entries of the run; in [bo_loop] it is the entry 1 and the run
    of the design reshaped to (runs, feats), multiplied by [J_cb] when there
    is one.  [cordex_continuous]'s evaluator
    regularises P as the specification says (P is the identity when nothing
    is configured), returns nan for every kind when P cannot be inverted,
    and otherwise always forms the sandwich P^-1 M P^-1 and returns the
    value of a minimising search: the negated determinant for D, the trace
    of the inverse for A, and nan when the determinant or the inverse of the
    sandwich raises; for every other kind, E and I included, it then raises
    the error for an invalid criterion.  [bo_loop]'s evaluator has no
    penalisation, works on M and returns the value of a maximising search:
    the determinant for D, the negated trace of the inverse for A, the
    negated largest eigenvalue for E, the smallest eigenvalue for I. *)
Theorem evaluators_follow_the_sign_table :
  forall (LA : Linalg) (cc : Cordex.config) (bc : BayesOpt.config),
    (forall Model Mu,
        (0 < Cordex.runs cc)%Z ->
        Cordex.Mu_of cc Model = Ret Mu ->
        exists J,
          Cordex.J_cb cc = Some J /\
          length Model = Z.to_nat (Cordex.runs cc) /\
          Mu = Spec.products_of_columns
                 (map (fun row =>
                         let k := cut (Cordex.sum_Z (Cordex.f_list cc) + 1)
                                      (length row) in
                         Spec.regressor_row (Some J) (firstn k row)
                                            (skipn k row))
                      Model)) /\
    (forall X M,
        (0 < BayesOpt.runs bc)%Z ->
        BayesOpt.M_of bc X = Ret M \/ BayesOpt.M_of_tensor bc X = Ret M ->
        exists X',
          (reshape X (BayesOpt.runs bc) (BayesOpt.feats bc) = Ret X' \/
           tensor_reshape X (BayesOpt.runs bc) (BayesOpt.feats bc) = Ret X') /\
          length X' = Z.to_nat (BayesOpt.runs bc) /\
          M = Spec.products_of_columns
                (map (fun row =>
                        match BayesOpt.J_cb bc with
                        | None => Spec.regressor_row None [] row
                        | Some J => Spec.regressor_row (Some J) row []
                        end)
                     X')) /\
    (forall Mu,
        Cordex.P_of cc Mu =
        Spec.spec_P Mu (Cordex.R_0 cc) (Cordex.smooth_pen cc)
                    (Cordex.ridge_pen cc)) /\
    (forall Mu P,
        Spec.spec_P Mu (Cordex.R_0 cc) (Cordex.smooth_pen cc)
                    (Cordex.ridge_pen cc) = Ret P ->
        linalg_inv P = None ->
        Cordex.criterion_of cc Mu = Ret nan) /\
    (forall Mu k P P_inv Mstar v,
        Spec.kind_of (Cordex.optimality cc) = Some k ->
        k = Spec.KD \/ k = Spec.KA ->
        Spec.spec_P Mu (Cordex.R_0 cc) (Cordex.smooth_pen cc)
                    (Cordex.ridge_pen cc) = Ret P ->
        linalg_inv P = Some P_inv ->
        Spec.sandwich P_inv Mu = Ret Mstar ->
        Spec.internal_value Spec.Minimising k Mstar Mu = Some v ->
        Cordex.criterion_of cc Mu = Ret v) /\
    (forall Mu P P_inv Mstar,
        Spec.spec_P Mu (Cordex.R_0 cc) (Cordex.smooth_pen cc)
                    (Cordex.ridge_pen cc) = Ret P ->
        linalg_inv P = Some P_inv ->
        Spec.sandwich P_inv Mu = Ret Mstar ->
        (String.eqb (Cordex.optimality cc) "D" = true /\
         linalg_det Mstar = None) \/
        (String.eqb (Cordex.optimality cc) "D" = false /\
         String.eqb (Cordex.optimality cc) "A" = true /\
         linalg_inv Mstar = None) ->
        Cordex.criterion_of cc Mu = Ret nan) /\
    (forall Mu P P_inv Mstar,
        String.eqb (Cordex.optimality cc) "D" = false ->
        String.eqb (Cordex.optimality cc) "A" = false ->
        Spec.spec_P Mu (Cordex.R_0 cc) (Cordex.smooth_pen cc)
                    (Cordex.ridge_pen cc) = Ret P ->
        linalg_inv P = Some P_inv ->
        Spec.sandwich P_inv Mu = Ret Mstar ->
        Cordex.criterion_of cc Mu = Raise (ValueError InvalidCriterion)) /\
    (forall M k v,
        Spec.kind_of (BayesOpt.optimality bc) = Some k ->
        Spec.internal_value Spec.Maximising k M M = Some v ->
        BayesOpt.criterion_of bc M = Ret v).
Proof.
  intros LA cc bc.
  split; [|split; [|split; [|split; [|split; [|split; [|split]]]]]].
  - intros Model Mu _. apply CordexFacts.Mu_of_entries.
  - intros X M _ [H|H]; [unfold BayesOpt.M_of in H
                          | unfold BayesOpt.M_of_tensor in H].
    + destruct (reshape X _ _) as [X'|e] eqn:E; cbn [Cordex.obind] in H;
        [|discriminate H].
      exists X'. split; [left; reflexivity|].
      apply BayesOptFacts.M_from_entries. exact H.
    + destruct (tensor_reshape X _ _) as [X'|e] eqn:E; cbn [Cordex.obind] in H;
        [|discriminate H].
      exists X'. split; [right; reflexivity|].
      apply BayesOptFacts.M_from_entries. exact H.
  - apply CordexFacts.P_of_refines_spec.
  - intros Mu P HP Hinv. apply (@CordexFacts.singular_P_gives_nan LA cc Mu P);
      [rewrite CordexFacts.P_of_refines_spec; exact HP | exact Hinv].
  - apply CordexFacts.cordex_criterion_refines_spec.
  - intros Mu P P_inv Mstar HP.
    apply CordexFacts.failed_sandwich_gives_nan.
    rewrite CordexFacts.P_of_refines_spec. exact HP.
  - intros Mu P P_inv Mstar HD HA HP.
    apply CordexFacts.cordex_criterion_refuses_others; try assumption.
    rewrite CordexFacts.P_of_refines_spec. exact HP.
  - apply BayesOptFacts.bo_criterion_refines_spec.
Qed.

(** The amended statement on the design with the runs 1 and -1, whose
    information matrix is [Mu22]: the penalised matrix P = diag(4, 8) of
    [cordex_continuous], its inverse, the sandwich diag(1/8, 1/32), the
    values for D and A, the refusal of E, nan for a singular P, nan under A
    for the singular information matrix of the design with the runs 1 and
    1, and the four values of [bo_loop]. *)
Lemma evaluators_follow_the_sign_table_witness :
  (exists J,
      Cordex.J_cb (penalised "D") = Some J /\
      length [[one]; [fneg one]] = Z.to_nat (Cordex.runs (penalised "D")) /\
      Mu22 = Spec.products_of_columns
               (map (fun row =>
                       let k := cut (Cordex.sum_Z (Cordex.f_list (penalised "D"))
                                     + 1) (length row) in
                       Spec.regressor_row (Some J) (firstn k row) (skipn k row))
                    [[one]; [fneg one]])) /\
  (exists X',
      (reshape [[one; fneg one]] 2 1 = Ret X' \/
       tensor_reshape [[one; fneg one]] 2 1 = Ret X') /\
      length X' = 2 /\
      Mu22 = Spec.products_of_columns
               (map (fun row => Spec.regressor_row None [] row) X')) /\
  @Cordex.P_of (penalised "D") Mu22 = Ret [[of_Z 4; zero]; [zero; of_Z 8]] /\
  @Cordex.criterion_of Reference.linalg (singular_penalty "E") Mu22 = Ret nan /\
  @Cordex.criterion_of Reference.linalg (penalised "D") Mu22
    = Ret (fneg (fdiv one (of_Z 256))) /\
  @Cordex.criterion_of Reference.linalg (penalised "A") Mu22
    = Ret (of_Z 40) /\
  @Cordex.criterion_of Reference.linalg (unpenalised "A")
     [[two; two]; [two; two]] = Ret nan /\
  @Cordex.criterion_of Reference.linalg (penalised "E") Mu22
    = Raise (ValueError InvalidCriterion) /\
  @BayesOpt.criterion_of Reference.linalg (bo_call 1 "D" 1) Mu22
    = Ret (of_Z 4) /\
  @BayesOpt.criterion_of Reference.linalg (bo_call 1 "A" 1) Mu22
    = Ret (fneg one) /\
  @BayesOpt.criterion_of Reference.linalg (bo_call 1 "E" 1) Mu22
    = Ret (fneg two) /\
  @BayesOpt.criterion_of Reference.linalg (bo_call 1 "I" 1) Mu22 = Ret two.
Proof.
  pose (P := [[of_Z 4; zero]; [zero; of_Z 8]]).
  pose (P_inv := [[fdiv one (of_Z 4); fneg zero];
                  [fneg zero; fdiv one (of_Z 8)]]).
  pose (Mstar := [[fdiv one (of_Z 8); zero]; [zero; fdiv one (of_Z 32)]]).
  pose proof (evaluators_follow_the_sign_table Reference.linalg
                (penalised "D") (bo_call 1 "D" 1))
    as [HZ [HM [HP [_ [HD [_ [_ HbD]]]]]]].
  pose proof (evaluators_follow_the_sign_table Reference.linalg
                (penalised "A") (bo_call 1 "A" 1))
    as [_ [_ [_ [_ [HA [_ [_ HbA]]]]]]].
  pose proof (evaluators_follow_the_sign_table Reference.linalg
                (penalised "E") (bo_call 1 "E" 1))
    as [_ [_ [_ [_ [_ [_ [HE HbE]]]]]]].
  pose proof (evaluators_follow_the_sign_table Reference.linalg
                (singular_penalty "E") (bo_call 1 "I" 1))
    as [_ [_ [_ [HS [_ [_ [_ HbI]]]]]]].
  pose proof (evaluators_follow_the_sign_table Reference.linalg
                (unpenalised "A") (bo_call 1 "A" 1))
    as [_ [_ [_ [_ [_ [HN _]]]]]].
  split; [|split; [|split; [|split; [|split; [|split; [|split;
    [|split; [|split; [|split; [|split]]]]]]]]]].
  - apply (HZ [[one]; [fneg one]] Mu22);
      [reflexivity | vm_compute; reflexivity].
  - apply (HM [[one; fneg one]] Mu22);
      [reflexivity | left; vm_compute; reflexivity].
  - rewrite (HP Mu22). vm_compute. reflexivity.
  - apply (HS Mu22 [[zero; zero]; [zero; zero]]); vm_compute; reflexivity.
  - apply (HD Mu22 Spec.KD P P_inv Mstar);
      [reflexivity | left; reflexivity | vm_compute; reflexivity ..].
  - apply (HA Mu22 Spec.KA P P_inv Mstar);
      [reflexivity | right; reflexivity | vm_compute; reflexivity ..].
  - apply (HN [[two; two]; [two; two]] (identity 2)
              [[one; fneg zero]; [fneg zero; one]] [[two; two]; [two; two]]);
      [vm_compute; reflexivity .. |].
    right. split; [reflexivity|]. split; vm_compute; reflexivity.
  - apply (HE Mu22 P P_inv Mstar); vm_compute; reflexivity.
  - apply (HbD Mu22 Spec.KD); vm_compute; reflexivity.
  - apply (HbA Mu22 Spec.KA); vm_compute; reflexivity.
  - apply (HbE Mu22 Spec.KE); vm_compute; reflexivity.
  - apply (HbI Mu22 Spec.KI); vm_compute; reflexivity.
Defined.

(** C2.  In [bo_loop]'s evaluator the value for a failed eigenvalue
    computation under the criterion I is +inf.  [bo_loop] keeps the largest
    value, so this value is not worse than any other: no value exceeds it
    and every finite value is strictly below it. *)
Theorem failed_eigenvalues_give_the_best_value :
  forall (LA : Linalg) (bc : BayesOpt.config) (X M : matrix),
    BayesOpt.optimality bc = "I"%string ->
    linalg_eigvals M = None ->
    BayesOpt.criterion_of bc M = Ret inf /\
    (BayesOpt.M_of bc X = Ret M -> BayesOpt.objective bc X = Ret inf) /\
    (BayesOpt.M_of_tensor bc X = Ret M ->
     BayesOpt.objective_tensor bc X = Ret inf) /\
    (forall v, flt inf v = false) /\
    (forall v, is_finite v = true -> flt v inf = true).
Proof.
  intros LA bc X M Ho He.
  assert (Hc : BayesOpt.criterion_of bc M = Ret inf)
    by (apply BayesOptFacts.singular_I; assumption).
  split; [exact Hc|]. split; [|split; [|split]].
  - intro HM. unfold BayesOpt.objective. rewrite HM. exact Hc.
  - intro HM. unfold BayesOpt.objective_tensor. rewrite HM. exact Hc.
  - apply FloatFacts.nothing_above_inf.
  - apply FloatFacts.finite_below_inf.
Qed.

(** The failing input: with [J_cb = [[1e200]]] the design (1, -1) has the
    information matrix [[2, 0], [0, inf]]; [numpy.linalg.eigvals] refuses
    it, and [objective] returns +inf, above the value 4 of any finite
    number. *)
Lemma failed_eigenvalues_give_the_best_value_witness :
  @BayesOpt.M_of overflowing [[one; fneg one]]
    = Ret [[two; zero]; [zero; inf]] /\
  @linalg_eigvals Reference.linalg [[two; zero]; [zero; inf]] = None /\
  @BayesOpt.objective Reference.linalg overflowing [[one; fneg one]]
    = Ret inf /\
  @BayesOpt.objective_tensor Reference.linalg overflowing [[one; fneg one]]
    = Ret inf /\
  flt (of_Z 4) inf = true.
Proof.
  assert (HM : @BayesOpt.M_of overflowing [[one; fneg one]]
               = Ret [[two; zero]; [zero; inf]]) by (vm_compute; reflexivity).
  assert (HE : @linalg_eigvals Reference.linalg [[two; zero]; [zero; inf]]
               = None) by (vm_compute; reflexivity).
  destruct (@failed_eigenvalues_give_the_best_value Reference.linalg
              overflowing [[one; fneg one]] [[two; zero]; [zero; inf]]
              eq_refl HE) as [_ [H1 [H2 [_ H3]]]].
  split; [exact HM|]. split; [exact HE|].
  split; [exact (H1 HM)|].
  split; [apply H2; vm_compute; reflexivity | apply H3; reflexivity].
Defined.

(** A run of [bo_loop] on that input: the candidate of the round gets +inf,
    which becomes the best observed value, and [bo_loop] returns the
    candidate with +inf as the optimum. *)
Lemma overflowing_design_is_returned_as_the_optimum :
  (match @BayesOpt.bo_loop_state Reference.linalg
           (Reference.constant_surrogate [[one; fneg one]])
           Reference.initial_design overflowing with
   | Ret s => BayesOpt.best_y_init s
   | Raise _ => nan
   end) = inf /\
  @BayesOpt.bo_loop Reference.linalg
     (Reference.constant_surrogate [[one; fneg one]]) Reference.initial_design
     overflowing = Ret ([[one]; [fneg one]], inf).
Proof. split; vm_compute; reflexivity. Qed.

(** The other two kinds of [bo_loop] get -inf, which is below every finite
    value, and [cordex_continuous] gets nan, which its acceptance test
    refuses. *)
Lemma remaining_singular_values :
  forall (LA : Linalg) (bc : BayesOpt.config) (cc : Cordex.config) M,
    (BayesOpt.optimality bc = "A"%string -> linalg_inv M = None ->
     BayesOpt.criterion_of bc M = Ret (fneg inf)) /\
    (BayesOpt.optimality bc = "E"%string -> linalg_eigvals M = None ->
     BayesOpt.criterion_of bc M = Ret (fneg inf)) /\
    (forall v, is_finite v = true -> flt (fneg inf) v = true) /\
    (forall P, Cordex.P_of cc M = Ret P -> linalg_inv P = None ->
               Cordex.criterion_of cc M = Ret nan) /\
    (forall fr, Cordex.check cc nan fr = false).
Proof.
  intros LA bc cc M. repeat split.
  - apply BayesOptFacts.singular_A.
  - apply BayesOptFacts.singular_E.
  - apply FloatFacts.finite_above_neg_inf.
  - apply CordexFacts.singular_P_gives_nan.
  - apply CordexFacts.check_refuses_nan.
Qed.

End EvaluatorClaims.

(* ================================================================== *)
(** * The run of [cordex_continuous] *)

Module CordexClaims.

Import Cordex Invariants Inputs.

(** C3.  The epochs never reach the pair that [cordex_continuous] returns.
    No call of [run_epoch] changes the Best-Result Pair, because lines
    131-132 assign names local to [run_epoch]; the sequential scheduler
    calls [run_epoch(None)], which raises [TypeError] at line 112 in the
    first epoch; so a run with one epoch returns no pair at all. *)
Theorem epochs_never_reach_the_returned_pair :
  (forall (LA : Linalg) (SD : StartDesign) (MZ : Minimizer) (c : config)
          (args : option (unit * Z)),
      keeps_best (Cordex.run_epoch c args)) /\
  (forall (LA : Linalg) (SD : StartDesign) (MZ : Minimizer) (c : config)
          (l : list nat) (fr : frame),
      for_each l (fun _ => Cordex.run_epoch c None) fr =
      (match l with [] => Ret tt | _ :: _ => Raise TypeError end, fr)) /\
  Inputs.cordex_continuous one_epoch = (Raise TypeError, initial_frame).
Proof.
  split; [|split].
  - intros. apply CordexFacts.run_epoch_keeps_best.
  - intros. apply CordexFacts.epochs_of_None.
  - vm_compute. reflexivity.
Qed.

(** C4.  With one factor of three basis functions, no scalar factor and two
    runs, [runs = sum(f_list) + scalars - 1], and the estimability error is
    not raised: line 137 compares [runs] with [len(f_list) + scalars], which
    is 1.  The run goes on to the first epoch. *)
Theorem estimability_guard_counts_factors :
  (runs short_of_one_run
   = sum_Z (f_list short_of_one_run) + scalars short_of_one_run - 1)%Z /\
  (runs short_of_one_run
   <? len_Z (f_list short_of_one_run) + scalars short_of_one_run)%Z = false /\
  fst (Inputs.cordex_continuous short_of_one_run)
    <> Raise (ValueError NotEstimable) /\
  fst (Inputs.cordex_continuous short_of_one_run) = Raise TypeError.
Proof.
  split; [reflexivity|]. split; [reflexivity|]. split.
  - vm_compute. intro H. discriminate H.
  - vm_compute. reflexivity.
Qed.

(** The guard in general: the error is raised exactly when the method is
    valid and [runs < len(f_list) + scalars]. *)
Lemma estimability_guard_in_general :
  forall (LA : Linalg) (SD : StartDesign) (MZ : Minimizer) (c : config),
    fst (Cordex.cordex_continuous c) = Raise (ValueError NotEstimable) <->
    mem_string (method c) valid_methods = true /\
    (runs c < len_Z (f_list c) + scalars c)%Z.
Proof. intros. apply CordexFacts.not_estimable_iff. Qed.

Lemma sum_at_least_length :
  forall (l : list Z) (a : Z),
    (forall x, In x l -> (1 <= x)%Z) ->
    (a + len_Z l <= fold_left Z.add l a)%Z.
Proof.
  unfold len_Z.
  induction l as [|x l IH]; intros a H; simpl fold_left.
  - simpl. lia.
  - assert (Hx : (1 <= x)%Z) by (apply H; left; reflexivity).
    specialize (IH (a + x)%Z (fun y Hy => H y (or_intror Hy))).
    simpl length. lia.
Qed.

(** When every factor has at least one basis function, one run more than
    [sum(f_list) + scalars] passes the guard. *)
Lemma one_run_more_passes_the_guard :
  forall (LA : Linalg) (SD : StartDesign) (MZ : Minimizer) (c : config),
    (forall x, In x (f_list c) -> (1 <= x)%Z) ->
    runs c = (sum_Z (f_list c) + scalars c + 1)%Z ->
    fst (Cordex.cordex_continuous c) <> Raise (ValueError NotEstimable).
Proof.
  intros LA SD MZ c Hpos Hruns H.
  apply CordexFacts.not_estimable_iff in H. destruct H as [_ H].
  pose proof (sum_at_least_length (f_list c) 0 Hpos) as Hs.
  unfold sum_Z in Hruns. lia.
Qed.

(** C5.  An epoch that is given a lock and an index stops in the first
    one-dimensional optimisation: the start design is drawn, the minimiser
    is called for the pair (0, 0), and its first call of [objective] raises
    [NameError], because [objective] uses [run], [feat] and [Model_mat] of
    [cordex_continuous], not those of [run_epoch].  No optimised value is
    written back and no other pair is visited.  Under the sequential
    scheduler the epoch does not even start. *)
Theorem epoch_sweep_stops_at_the_first_coordinate :
  Inputs.run_epoch one_epoch (Some (tt, 0%Z)) initial_frame =
  (Raise NameError,
   {| Model_mat := None; run := None; feat := None; Best_des := RefNone;
      Best_obj := inf; lock_held := false; draws := 1;
      log := [EvStartDesign; EvMinimize 0 0; EvCriterion one] |}) /\
  Inputs.cordex_continuous one_epoch = (Raise TypeError, initial_frame).
Proof. split; vm_compute; reflexivity. Qed.

(** The same for every collaborator and every configuration with at least
    one run and one coordinate. *)
Lemma epoch_sweep_stops_in_general :
  forall (LA : Linalg) (SD : StartDesign) (MZ : Minimizer) (c : config)
         e fr Model fr1 x0,
    lock_held fr = false ->
    (0 <? runs c)%Z = true ->
    (0 <? f_coeffs c + scalars c - 1)%Z = true ->
    start_design c (with_lock true fr) = (Ret Model, fr1) ->
    run fr1 = None ->
    get Model 0 0 = Some x0 ->
    fst (Cordex.run_epoch c (Some (tt, e)) fr) = Raise NameError.
Proof. intros. eapply CordexFacts.run_epoch_stops_at_first_coordinate; eauto. Qed.

(** C7.  In the sequential run the Best-Result Pair is consistent at every
    point.  It starts as [(None, np.inf)].  An epoch, whatever its argument,
    leaves it as it is: lines 131-132 assign names of [run_epoch].  A round
    of the final pass, from any frame, leaves it as it is or replaces both
    parts at once, by the array that [Model_mat] names and by the value that
    [objective] returned last for that array; that value was accepted by
    [check], so it is not nan and its absolute value is not negative.  At
    the end of every run the pair is still the initial one, and a value that
    the run returns is not negative. *)
Theorem stored_pair_stays_consistent :
  forall (LA : Linalg) (SD : StartDesign) (MZ : Minimizer) (c : config),
    pair_consistent c initial_frame /\
    (forall args fr,
        Best_des fr = RefNone -> pair_consistent c fr ->
        same_best fr (snd (Cordex.run_epoch c args fr)) /\
        pair_consistent c (snd (Cordex.run_epoch c args fr))) /\
    (forall fr,
        same_best fr (snd (final_pass_round c fr)) \/
        (Best_des (snd (final_pass_round c fr)) = RefModelMat /\
         pair_consistent c (snd (final_pass_round c fr)) /\
         check c (Best_obj (snd (final_pass_round c fr))) fr = true /\
         fle zero (fabs (Best_obj (snd (final_pass_round c fr)))) = true)) /\
    same_best initial_frame (snd (Cordex.cordex_continuous c)) /\
    pair_consistent c (snd (Cordex.cordex_continuous c)) /\
    (forall d v,
        fst (Cordex.cordex_continuous c) = Ret (d, v) -> fle zero v = true).
Proof.
  intros LA SD MZ c.
  split; [reflexivity|]. split; [|split; [|split; [|split]]].
  - intros args fr Hd Hp.
    pose proof (CordexFacts.run_epoch_keeps_best c args fr) as Hk.
    split; [exact Hk|].
    destruct Hk as [Hk1 Hk2]. unfold pair_consistent in *.
    rewrite Hk1, Hd. rewrite Hk2. rewrite Hd in Hp. exact Hp.
  - intro fr.
    destruct (CordexFacts.final_pass_round_replaces_both c fr)
      as [H|[H1 [H2 H3]]]; [left; exact H|].
    right. split; [exact H1|]. split; [|split; [exact H2|]].
    + unfold pair_consistent. rewrite H1. exact H3.
    + apply FloatFacts.fabs_not_negative.
      eapply CordexFacts.check_accepts_numbers. exact H2.
  - rewrite CordexFacts.cordex_continuous_sequential. split; reflexivity.
  - rewrite CordexFacts.cordex_continuous_sequential. reflexivity.
  - intros d v H.
    destruct (@CordexFacts.returns_only_the_initial_pair LA SD MZ c d v H)
      as [_ [Hv _]].
    subst v. reflexivity.
Qed.

(** The statement on concrete inputs: an epoch that is given a lock and an
    index, from the initial frame; a round of the final pass from a frame
    that holds the design with the runs 1 and -1, which stores that design
    with the value -4, the negated determinant of its information matrix;
    and a run without epochs, which returns [np.inf]. *)
Lemma stored_pair_stays_consistent_witness :
  (same_best initial_frame
     (snd (Inputs.run_epoch one_epoch (Some (tt, 0%Z)) initial_frame)) /\
   @pair_consistent Reference.linalg one_epoch
     (snd (Inputs.run_epoch one_epoch (Some (tt, 0%Z)) initial_frame))) /\
  (Best_des (snd (@final_pass_round Reference.linalg Reference.minimizer
                    MoreInputs.single_column MoreInputs.single_column_frame))
     = RefModelMat /\
   Best_obj (snd (@final_pass_round Reference.linalg Reference.minimizer
                    MoreInputs.single_column MoreInputs.single_column_frame))
     = fneg (of_Z 4) /\
   @pair_consistent Reference.linalg MoreInputs.single_column
     (snd (@final_pass_round Reference.linalg Reference.minimizer
             MoreInputs.single_column MoreInputs.single_column_frame))) /\
  fst (Inputs.cordex_continuous no_epoch) = Ret (None, inf) /\
  fle zero inf = true.
Proof.
  pose proof (stored_pair_stays_consistent Reference.linalg
                Reference.start_design Reference.minimizer one_epoch)
    as [H0 [He _]].
  pose proof (stored_pair_stays_consistent Reference.linalg
                Reference.start_design Reference.minimizer
                MoreInputs.single_column) as [_ [_ [Hf _]]].
  pose proof (stored_pair_stays_consistent Reference.linalg
                Reference.start_design Reference.minimizer no_epoch)
    as [_ [_ [_ [_ [_ Hr]]]]].
  split; [|split; [|split]].
  - exact (He (Some (tt, 0%Z)) initial_frame eq_refl H0).
  - assert (Hd : Best_des
                   (snd (@final_pass_round Reference.linalg Reference.minimizer
                           MoreInputs.single_column
                           MoreInputs.single_column_frame)) = RefModelMat)
      by (vm_compute; reflexivity).
    split; [exact Hd|]. split; [vm_compute; reflexivity|].
    destruct (Hf MoreInputs.single_column_frame) as [[H _]|[_ [H _]]];
      [|exact H].
    rewrite Hd in H. discriminate H.
  - reflexivity.
  - exact (Hr None inf eq_refl).
Defined.

End CordexClaims.

(* ================================================================== *)
(** * The rounds of [bo_loop] *)

Module BayesOptClaims.

Import BayesOpt Inputs.

(** C6.  When the surrogate fit fails in every round, each round drops the
    last observation and goes on, nothing is recorded in [epochs_list], and
    the selection after the loop, [epochs_list[:, 1]], raises [IndexError]
    to the caller of [bo_loop]; this holds for every number of rounds. *)
Theorem failing_rounds_end_in_IndexError :
  forall (LA : Linalg) (SU : Surrogate) (ID : InitialDesign) (c : config)
         (s0 : state),
    (forall round X y, fit_gpytorch_model round X y = None) ->
    initial_state c = Ret s0 ->
    BayesOpt.bo_loop c = Raise IndexError.
Proof. intros. eapply BayesOptFacts.all_rounds_failing; eassumption. Qed.

Lemma failing_rounds_end_in_IndexError_witness :
  @initial_state Reference.linalg Reference.initial_design (bo_call 3 "D" 1)
    = Ret first_observation /\
  Inputs.bo_loop Reference.failing_surrogate (bo_call 3 "D" 1)
    = Raise IndexError.
Proof.
  split; [vm_compute; reflexivity|].
  apply (@failing_rounds_end_in_IndexError Reference.linalg
           Reference.failing_surrogate Reference.initial_design
           (bo_call 3 "D" 1) first_observation).
  - intros round X y. reflexivity.
  - vm_compute. reflexivity.
Defined.

(** A batch of two candidates: the evaluation of the batch is outside the
    [try], and its [reshape] raises out of the round. *)
Lemma batch_of_two_raises_out_of_the_round :
  Inputs.bo_loop (Reference.constant_surrogate [[one; one]; [one; fneg one]])
                 (bo_call 3 "D" 2)
  = Raise OperandError.
Proof. vm_compute. reflexivity. Qed.

(** C9, as stated, fails: a round whose surrogate fit fails removes the
    observation that was there, and the history becomes shorter. *)
Lemma failing_round_shortens_the_history :
  Inputs.bo_round Reference.failing_surrogate (bo_call 3 "D" 1) 0
                  first_observation
  = Ret {| X_init := []; y_init := []; best_y_init := of_Z 4;
           epochs_list := [] |} /\
  length (X_init first_observation) = 1 /\
  ~ (exists new, ([] : matrix) = X_init first_observation ++ new).
Proof.
  split; [vm_compute; reflexivity|]. split; [reflexivity|].
  intros [new H]. discriminate H.
Qed.

(** C9, amended.  A round that returns either appends the candidates at the
    end of [X_init] and the single-precision value of [objective] on them at
    the end of [y_init], leaves the earlier observations as they were,
    records the round with that value and those candidates, and takes the
    largest value of the history as the best one; or, when the surrogate
    fit or the candidate generation raised, removes the last observation
    and leaves the others, the best value and the record as they were. *)
Theorem round_appends_or_drops_the_last :
  forall (LA : Linalg) (SU : Surrogate) (c : config) (epoch : nat)
         (s s' : state),
    BayesOpt.bo_round c epoch s = Ret s' ->
    (exists cand r,
        gen_next_point c epoch (X_init s) (y_init s) (best_y_init s)
          = Ret cand /\
        objective_tensor c cand = Ret r /\
        X_init s' = X_init s ++ cand /\
        y_init s' = y_init s ++ [to_float32 r] /\
        epochs_list s' = epochs_list s ++ [(epoch, to_float32 r, cand)] /\
        amax (y_init s') = Ret (best_y_init s')) \/
    (is_raise (gen_next_point c epoch (X_init s) (y_init s) (best_y_init s))
       = true /\
     X_init s' = removelast (X_init s) /\
     y_init s' = removelast (y_init s) /\
     epochs_list s' = epochs_list s /\
     best_y_init s' = best_y_init s).
Proof.
  intros LA SU c epoch s s' H.
  destruct (gen_next_point c epoch (X_init s) (y_init s) (best_y_init s))
    as [cand|e] eqn:Hg.
  - left. destruct (@BayesOptFacts.successful_round LA SU c epoch s s' cand
                      Hg H) as [v Hv].
    exists cand, v. split; [reflexivity | exact Hv].
  - right. rewrite BayesOptFacts.failing_round in H
      by (rewrite Hg; reflexivity).
    inversion H; subst; clear H. cbn. auto.
Qed.

(** A round on the history that holds the design (1, -1) with the value 4:
    the candidate (1, 1) has the determinant 0, the history gets the row
    (1, 1) and the value 0, and the best value stays 4. *)
Lemma round_appends_or_drops_the_last_witness :
  Inputs.bo_round (Reference.constant_surrogate [[one; one]])
                  (bo_call 3 "D" 1) 0 first_observation
  = Ret {| X_init := [[one; fneg one]; [one; one]];
           y_init := [of_Z 4; zero]; best_y_init := of_Z 4;
           epochs_list := [(0, zero, [[one; one]])] |} /\
  ((exists cand r,
       @gen_next_point (Reference.constant_surrogate [[one; one]])
          (bo_call 3 "D" 1) 0 [[one; fneg one]] [of_Z 4] (of_Z 4) = Ret cand /\
       @objective_tensor Reference.linalg (bo_call 3 "D" 1) cand = Ret r /\
       [[one; fneg one]; [one; one]] = [[one; fneg one]] ++ cand /\
       [of_Z 4; zero] = [of_Z 4] ++ [to_float32 r] /\
       [(0, zero, [[one; one]])] = [] ++ [(0, to_float32 r, cand)] /\
       amax [of_Z 4; zero] = Ret (of_Z 4)) \/
   (is_raise (@gen_next_point (Reference.constant_surrogate [[one; one]])
                (bo_call 3 "D" 1) 0 [[one; fneg one]] [of_Z 4] (of_Z 4))
      = true /\
    [[one; fneg one]; [one; one]] = removelast [[one; fneg one]] /\
    [of_Z 4; zero] = removelast [of_Z 4] /\
    [(0, zero, [[one; one]])] = [] /\
    of_Z 4 = of_Z 4)).
Proof.
  split; [vm_compute; reflexivity|].
  apply (@round_appends_or_drops_the_last Reference.linalg
           (Reference.constant_surrogate [[one; one]]) (bo_call 3 "D" 1) 0
           first_observation
           {| X_init := [[one; fneg one]; [one; one]];
              y_init := [of_Z 4; zero]; best_y_init := of_Z 4;
              epochs_list := [(0, zero, [[one; one]])] |}).
  vm_compute. reflexivity.
Defined.

(** The single-precision value is ordered like any other binary64 number:
    in a history with the values 4 and 1 the best value is 4. *)
Lemma best_value_of_a_mixed_history :
  flt (of_Z 4) (to_float32 one) = false /\
  amax [of_Z 4; to_float32 one] = Ret (of_Z 4) /\
  to_float32 (fdiv one (of_Z 3)) <> fdiv one (of_Z 3).
Proof.
  split; [reflexivity|]. split; [reflexivity|].
  vm_compute. intro H. discriminate H.
Qed.

End BayesOptClaims.

(* ================================================================== *)
(** * Configuration errors *)

Module ConfigurationClaims.

Import Cordex Invariants Inputs.

(** C8, as stated, fails for the criterion kind: with a criterion that is
    none of the four kinds, a valid method and enough runs,
    [cordex_continuous] returns normally when no epoch is asked for, and
    with one epoch it raises the [TypeError] of the first epoch; the error
    for the criterion is not raised in either run. *)
Lemma invalid_criterion_is_not_raised_up_front :
  Spec.kind_of (optimality unknown_criterion) = None /\
  fst (Inputs.cordex_continuous unknown_criterion_no_epoch)
    = Ret (None, inf) /\
  fst (Inputs.cordex_continuous unknown_criterion) = Raise TypeError.
Proof. repeat split; vm_compute; reflexivity. Qed.

(** C8, amended.  An invalid optimisation method and a run count below
    [len(f_list) + scalars] are raised by [cordex_continuous] before any
    search work: the frame is the initial one, with an empty record of
    work.  The criterion kind is not checked up front.  The evaluator of
    [cordex_continuous] examines it only after the matrices are built and P
    is inverted, and the sequential run never raises that error; the
    evaluator of [bo_loop] raises it when a design, whose information matrix
    it has built, is evaluated. *)
Theorem guards_precede_search_criterion_does_not :
  forall (LA : Linalg) (SD : StartDesign) (MZ : Minimizer)
         (cc : Cordex.config) (bc : BayesOpt.config),
    no_search_work initial_frame /\
    (mem_string (method cc) valid_methods = false ->
     Cordex.cordex_continuous cc
       = (Raise (ValueError InvalidMethod), initial_frame)) /\
    (mem_string (method cc) valid_methods = true ->
     (runs cc < len_Z (f_list cc) + scalars cc)%Z ->
     Cordex.cordex_continuous cc
       = (Raise (ValueError NotEstimable), initial_frame)) /\
    (forall Mu,
        Cordex.criterion_of cc Mu = Raise (ValueError InvalidCriterion) ->
        exists P P_inv, P_of cc Mu = Ret P /\ linalg_inv P = Some P_inv) /\
    fst (Cordex.cordex_continuous cc) <> Raise (ValueError InvalidCriterion) /\
    (forall X M,
        Spec.kind_of (BayesOpt.optimality bc) = None ->
        BayesOpt.M_of bc X = Ret M ->
        BayesOpt.objective bc X = Raise (ValueError InvalidCriterion)).
Proof.
  intros LA SD MZ cc bc.
  split; [reflexivity|]. split; [|split; [|split; [|split]]].
  - intro H. rewrite CordexFacts.cordex_continuous_sequential, H. reflexivity.
  - intros Hm Hr. rewrite CordexFacts.cordex_continuous_sequential, Hm.
    cbn [negb]. apply Z.ltb_lt in Hr. rewrite Hr. reflexivity.
  - apply CordexFacts.invalid_criterion_after_inversion.
  - apply CordexFacts.never_invalid_criterion.
  - intros X M Hk HM. unfold BayesOpt.objective. rewrite HM.
    cbn [Cordex.obind]. apply BayesOptFacts.bo_criterion_refuses_unknown.
    exact Hk.
Qed.

Lemma guards_precede_search_criterion_does_not_witness :
  Inputs.cordex_continuous unknown_method
    = (Raise (ValueError InvalidMethod), initial_frame) /\
  Inputs.cordex_continuous too_few_runs
    = (Raise (ValueError NotEstimable), initial_frame) /\
  (exists P P_inv,
      @P_of unknown_criterion Mu22 = Ret P /\
      @linalg_inv Reference.linalg P = Some P_inv) /\
  @BayesOpt.objective Reference.linalg (bo_call 1 "X" 1) [[one; fneg one]]
    = Raise (ValueError InvalidCriterion).
Proof.
  pose proof (guards_precede_search_criterion_does_not Reference.linalg
                Reference.start_design Reference.minimizer unknown_method
                (bo_call 1 "X" 1)) as [_ [Hm [_ [_ [_ Hb]]]]].
  pose proof (guards_precede_search_criterion_does_not Reference.linalg
                Reference.start_design Reference.minimizer too_few_runs
                (bo_call 1 "X" 1)) as [_ [_ [Hr _]]].
  pose proof (guards_precede_search_criterion_does_not Reference.linalg
                Reference.start_design Reference.minimizer unknown_criterion
                (bo_call 1 "X" 1)) as [_ [_ [_ [Hc _]]]].
  split; [|split; [|split]].
  - apply Hm. reflexivity.
  - apply Hr; reflexivity.
  - apply (Hc Mu22). vm_compute. reflexivity.
  - apply (Hb [[one; fneg one]] Mu22); vm_compute; reflexivity.
Defined.

End ConfigurationClaims.

(* ================================================================== *)
(** * basis.py: the indicator *)

Module BasisExtras.

Import Basis.
Local Open Scope R_scope.

(** ** The indicator *)

Lemma Rleb_spec : forall x y, Rleb x y = true <-> x <= y.
Proof.
  intros x y. unfold Rleb.
  destruct (Rle_dec x y); split; intros; try discriminate; auto; contradiction.
Qed.

Lemma Rltb_spec : forall x y, Rltb x y = true <-> x < y.
Proof.
  intros x y. unfold Rltb.
  destruct (Rlt_dec x y); split; intros; try discriminate; auto; contradiction.
Qed.

Lemma Reqb_spec : forall x y, Reqb x y = true <-> x = y.
Proof.
  intros x y. unfold Reqb.
  destruct (Req_dec_T x y); split; intros; try discriminate; auto;
    contradiction.
Qed.

Lemma indicator_one_iff :
  forall t l u,
    indicator t l u = 1%Z <-> (t = u /\ u = 1) \/ (l <= t /\ t < u).
Proof.
  intros t l u. unfold indicator.
  destruct ((Reqb t u && Reqb u 1) || (Rleb l t && Rltb t u)) eqn:E.
  - split; [intros _|reflexivity].
    apply orb_true_iff in E. destruct E as [E|E]; apply andb_true_iff in E;
      destruct E as [E1 E2]; [left|right]; split;
      first [apply Reqb_spec | apply Rleb_spec | apply Rltb_spec]; assumption.
  - split; [discriminate|]. intros H. exfalso.
    apply orb_false_iff in E. destruct E as [E1 E2].
    destruct H as [[H1 H2]|[H1 H2]].
    + apply Reqb_spec in H1. apply Reqb_spec in H2. rewrite H1, H2 in E1.
      discriminate.
    + apply Rleb_spec in H1. apply Rltb_spec in H2. rewrite H1, H2 in E2.
      discriminate.
Qed.

Lemma indicator_zero_or_one :
  forall t l u, indicator t l u = 0%Z \/ indicator t l u = 1%Z.
Proof. intros. unfold indicator. destruct (_ || _); auto. Qed.

Lemma indicator_zero_iff :
  forall t l u,
    indicator t l u = 0%Z <-> ~ ((t = u /\ u = 1) \/ (l <= t /\ t < u)).
Proof.
  intros t l u. rewrite <- indicator_one_iff.
  destruct (indicator_zero_or_one t l u) as [H|H]; rewrite H; split; intros;
    try discriminate; auto; try lia.
Qed.

(** X4.  The right end point of the interval belongs to it exactly when it
    is 1, whatever the left end point is: [indicator(u, l, u)] is 1 if and
    only if [u = 1]. *)
Theorem indicator_right_end :
  forall l u, indicator u l u = 1%Z <-> u = 1.
Proof.
  intros l u. rewrite indicator_one_iff. split.
  - intros [[_ H]|[_ H]]; [exact H | lra].
  - intro H. left. auto.
Qed.

End BasisExtras.

(* ================================================================== *)
(** * cordex_continuous_parallel.py: acceptance, evaluation, final pass *)

Module CordexExtras.

Import Cordex Inputs MoreInputs.

(** X9.  Under the D criterion at most one candidate is ever accepted:
    [check] accepts a value only if it is negative and the stored
    [Best_obj] is positive, and an accepted value is stored as [Best_obj];
    after that [check] refuses every value. *)
Theorem D_accepts_only_once :
  forall (c : config) obj fr d,
    optimality c = "D"%string ->
    check c obj fr = true ->
    forall obj', check c obj' (with_Best d obj fr) = false.
Proof.
  intros c obj fr d Ho H obj'. unfold check in *. rewrite Ho in *.
  cbn in H |- *.
  apply andb_true_iff in H. destruct H as [H _].
  rewrite (ArrayFacts.flt_asym _ _ H). apply andb_false_r.
Qed.

Lemma D_accepts_only_once_witness :
  check one_epoch (fneg one) initial_frame = true /\
  check one_epoch (fneg two)
        (with_Best RefModelMat (fneg one) initial_frame) = false.
Proof.
  assert (H : check one_epoch (fneg one) initial_frame = true)
    by (vm_compute; reflexivity).
  split; [exact H|].
  exact (@D_accepts_only_once one_epoch (fneg one) initial_frame RefModelMat
           eq_refl H (fneg two)).
Defined.

(** X10.  Under the A criterion an accepted value is a positive finite
    number strictly below the stored [Best_obj]; [np.abs] leaves it as it
    is. *)
Theorem A_accepts_positive_finite :
  forall (c : config) obj fr,
    optimality c = "A"%string ->
    check c obj fr = true ->
    is_finite obj = true /\ flt zero obj = true /\ fabs obj = obj /\
    flt obj (Best_obj fr) = true.
Proof.
  intros c obj fr Ho H. unfold check in H. rewrite Ho in H. cbn in H.
  apply andb_true_iff in H. destruct H as [H1 H2].
  split; [|split; [exact H1 | split; [|exact H2]]].
  - destruct obj as [s|s| |s m e]; try reflexivity; try discriminate.
    destruct s; [discriminate|].
    rewrite FloatFacts.nothing_above_inf in H2. discriminate.
  - destruct obj as [s|s| |s m e]; try destruct s; try discriminate;
      reflexivity.
Qed.

Lemma A_accepts_positive_finite_witness :
  check short_of_one_run two initial_frame = true /\
  is_finite two = true /\ fabs two = two.
Proof.
  assert (H : check short_of_one_run two initial_frame = true)
    by (vm_compute; reflexivity).
  destruct (@A_accepts_positive_finite short_of_one_run two initial_frame
              eq_refl H) as [H1 [_ [H3 _]]].
  split; [exact H|]. split; [exact H1 | exact H3].
Defined.

Section Evaluation.
Context {LA : Linalg}.

(** X11.  With its variables bound and [(run, feat)] inside the design,
    [objective(x)] leaves [x] stored at [(run, feat)], every other entry
    and the shape of [Model_mat] as they were, whether the evaluation then
    returns or raises. *)
Theorem objective_leaves_x_in_the_design :
  forall (c : config) x fr m r f,
    Model_mat fr = Some m -> run fr = Some r -> feat fr = Some f ->
    get m r f <> None ->
    exists m',
      Model_mat (snd (objective c x fr)) = Some m' /\
      get m' r f = Some x /\
      (forall i j, (i, j) <> (r, f) -> get m' i j = get m i j) /\
      map (@length float64) m' = map (@length float64) m.
Proof.
  intros c x fr m r f Hm Hr Hf Hin.
  destruct (ArrayFacts.set_defined m r f x Hin) as [m' Hset].
  exists m'.
  rewrite (CordexFacts.objective_evaluates_updated_design c x fr Hm Hr Hf Hset).
  cbn. split; [reflexivity|]. split; [eapply ArrayFacts.get_set_same; eauto|].
  split; [intros; eapply ArrayFacts.get_set_other; eauto
         | eapply ArrayFacts.shape_set; eauto].
Qed.

(** X12.  The information matrix that either evaluator builds is equal to
    its own transpose, entry by entry in binary64 (each entry being summed
    from left to right). *)
Theorem information_matrices_are_symmetric :
  forall (cc : Cordex.config) (bc : BayesOpt.config),
    (forall Model Mu, Cordex.Mu_of cc Model = Ret Mu -> transpose Mu = Mu) /\
    (forall X M, BayesOpt.M_of bc X = Ret M -> transpose M = M).
Proof.
  intros cc bc. split.
  - intros Model Mu. unfold Cordex.Mu_of.
    destruct (Cordex.Zetta_of cc Model) as [Z|e]; cbn [Cordex.obind];
      [|discriminate].
    apply ArrayFacts.information_symmetric.
  - intros X M. unfold BayesOpt.M_of.
    destruct (reshape X _ _) as [X'|e]; cbn [Cordex.obind]; [|discriminate].
    unfold BayesOpt.M_from.
    destruct (BayesOpt.J_cb bc) as [J|].
    + destruct (matmul X' J) as [XJ|e]; cbn [Cordex.obind]; [|discriminate].
      destruct (hcat _ XJ) as [Z|e]; cbn [Cordex.obind]; [|discriminate].
      apply ArrayFacts.information_symmetric.
    + destruct (hcat _ X') as [Z|e]; cbn [Cordex.obind]; [|discriminate].
      apply ArrayFacts.information_symmetric.
Qed.

End Evaluation.

Lemma objective_leaves_x_in_the_design_witness :
  get [[one; fneg one]; [fneg one; one]] 0 0 <> None /\
  exists m',
    Model_mat (snd (@objective Reference.linalg one_epoch zero bound_frame))
      = Some m' /\
    get m' 0 0 = Some zero /\
    (forall i j, (i, j) <> (0, 0) ->
                 get m' i j = get [[one; fneg one]; [fneg one; one]] i j) /\
    map (@length float64) m'
      = map (@length float64) [[one; fneg one]; [fneg one; one]].
Proof.
  assert (H : get [[one; fneg one]; [fneg one; one]] 0 0 <> None)
    by (vm_compute; discriminate).
  split; [exact H|].
  exact (@objective_leaves_x_in_the_design Reference.linalg one_epoch zero
           bound_frame [[one; fneg one]; [fneg one; one]] 0 0
           eq_refl eq_refl eq_refl H).
Defined.

Lemma information_matrices_are_symmetric_witness :
  @Cordex.Mu_of one_epoch [[one; fneg one]; [fneg one; one]]
    = Ret [[two; zero; zero]; [zero; two; fneg two]; [zero; fneg two; two]] /\
  transpose [[two; zero; zero]; [zero; two; fneg two]; [zero; fneg two; two]]
    = [[two; zero; zero]; [zero; two; fneg two]; [zero; fneg two; two]] /\
  @BayesOpt.M_of (bo_call 1 "D" 1) [[one; fneg one]] = Ret Mu22 /\
  transpose Mu22 = Mu22.
Proof.
  assert (H1 : @Cordex.Mu_of one_epoch [[one; fneg one]; [fneg one; one]]
               = Ret [[two; zero; zero]; [zero; two; fneg two];
                      [zero; fneg two; two]])
    by (vm_compute; reflexivity).
  assert (H2 : @BayesOpt.M_of (bo_call 1 "D" 1) [[one; fneg one]] = Ret Mu22)
    by (vm_compute; reflexivity).
  destruct (information_matrices_are_symmetric one_epoch (bo_call 1 "D" 1))
    as [Hc Hb].
  split; [exact H1|]. split; [exact (Hc _ _ H1)|].
  split; [exact H2 | exact (Hb _ _ H2)].
Defined.

(** X13.  With a valid method and enough runs, no epochs and the final pass
    requested, the run raises [AttributeError]: the final pass asks for
    [Model_mat.shape] while [Model_mat] is still [None]. *)
Theorem final_pass_without_epochs :
  forall (LA : Linalg) (SD : StartDesign) (MZ : Minimizer) (c : config),
    mem_string (method c) valid_methods = true ->
    (len_Z (f_list c) + scalars c <= runs c)%Z ->
    (0 <= runs c)%Z ->
    (epochs c <= 0)%Z ->
    final_pass c = true ->
    (0 < final_pass_iter c)%Z ->
    Cordex.cordex_continuous c = (Raise AttributeError, initial_frame).
Proof.
  intros LA SD MZ c Hm Hr H0 He Hf Hi.
  rewrite CordexFacts.cordex_continuous_sequential.
  rewrite Hm, Hf. cbn [negb andb].
  replace (runs c <? len_Z (f_list c) + scalars c)%Z with false
    by (symmetry; apply Z.ltb_ge; lia).
  replace (runs c <? 0)%Z with false by (symmetry; apply Z.ltb_ge; lia).
  replace (0 <? epochs c)%Z with false by (symmetry; apply Z.ltb_ge; lia).
  replace (0 <? final_pass_iter c)%Z with true
    by (symmetry; apply Z.ltb_lt; lia).
  reflexivity.
Qed.

Lemma final_pass_without_epochs_witness :
  Inputs.cordex_continuous no_epoch_final_pass
  = (Raise AttributeError, initial_frame).
Proof.
  apply (@final_pass_without_epochs Reference.linalg Reference.start_design
           Reference.minimizer no_epoch_final_pass).
  - reflexivity.
  - vm_compute. intro H. discriminate H.
  - vm_compute. intro H. discriminate H.
  - vm_compute. intro H. discriminate H.
  - reflexivity.
  - reflexivity.
Defined.

(** X14.  The sequential run does no search work and never consults its
    collaborators: for every configuration the frame it ends with is the
    initial one, and its outcome is the same for any two implementations of
    [numpy.linalg], the start designs and the minimiser. *)
Theorem sequential_run_does_no_search_work :
  forall (LA LA' : Linalg) (SD SD' : StartDesign) (MZ MZ' : Minimizer)
         (c : config),
    snd (@Cordex.cordex_continuous LA SD MZ c) = initial_frame /\
    @Cordex.cordex_continuous LA SD MZ c
      = @Cordex.cordex_continuous LA' SD' MZ' c.
Proof.
  intros. rewrite !CordexFacts.cordex_continuous_sequential.
  split; reflexivity.
Qed.

End CordexExtras.

(* ================================================================== *)
(** * bayesian_opt.py: shapes, rounds and the returned design *)

Module BayesOptExtras.

Import BayesOpt Records.

Section Loop.
Context {LA : Linalg} {SU : Surrogate} {ID : InitialDesign}.
Variable c : config.

(** X15.  Flattening a design of [runs] rows and [feats] columns to one row
    and reshaping that row to [(runs, feats)] gives the design back; so
    [objective] on the flattened design builds the information matrix of
    the design itself. *)
Theorem flattened_design_is_evaluated_as_itself :
  forall X : matrix,
    (0 <= runs c)%Z -> (0 <= feats c)%Z -> length X = Z.to_nat (runs c) ->
    (forall row, In row X -> length row = Z.to_nat (feats c)) ->
    reshape X 1 (width c) = Ret [flatten X] /\
    reshape [flatten X] (runs c) (feats c) = Ret X /\
    M_of c [flatten X] =
    (let ones := repeat [one] (Z.to_nat (runs c)) in
     Cordex.obind
       (match J_cb c with
        | None => hcat ones X
        | Some J => Cordex.obind (matmul X J) (fun XJ => hcat ones XJ)
        end)
       (fun Zetta => matmul (transpose Zetta) Zetta)).
Proof.
  intros X Hr Hf Hrows Hcols.
  destruct (ArrayFacts.flatten_reshape X Hr Hf Hrows Hcols) as [H1 H2].
  split; [exact H1|]. split; [exact H2|].
  unfold M_of. rewrite H2. reflexivity.
Qed.

(** X16.  For non-negative [runs] and [feats], [objective] refuses every
    array whose number of entries is not [runs * feats]. *)
Theorem objective_refuses_wrong_size :
  forall X,
    (0 <= runs c)%Z -> (0 <= feats c)%Z ->
    Z.of_nat (length (flatten X)) <> (runs c * feats c)%Z ->
    objective c X = Raise OperandError.
Proof.
  intros X Hr Hf Hn. unfold objective, M_of.
  rewrite (ArrayFacts.reshape_wrong_size _ Hr Hf Hn). reflexivity.
Qed.

(** X17.  When the initialisation succeeds, the Observation History starts
    with exactly one observation: the flattened design that
    [gen_rand_design], or the coordinate exchange, returned, with the value
    of [objective] on it; [epochs_list] is empty.  The best value is that
    value after a random start, and the value that the coordinate exchange
    reported after a start by coordinate exchange. *)
Theorem history_starts_with_one_observation :
  forall s0,
    initial_state c = Ret s0 ->
    exists X y,
      match initialization_method c with
      | None =>
          gen_rand_design (runs c) (feats c) = Ret X /\ best_y_init s0 = y
      | Some m =>
          exists J,
            J_cb c = Some J /\
            let rows := Z.of_nat (nrows J) in
            cordex_bootstrap (runs c) rows
              (rows / 10 + (if (rows mod 10 =? 0)%Z then 0 else 1))%Z
              m (optimality c) = Ret (X, best_y_init s0)
      end /\
      X_init s0 = [flatten X] /\ y_init s0 = [y] /\
      objective c [flatten X] = Ret y /\ epochs_list s0 = [].
Proof.
  intros s0. unfold initial_state, get_initial_data, get_initial_data_cordex.
  destruct (initialization_method c) as [m|].
  - destruct (J_cb c) as [J|]; [|intro H; discriminate H].
    destruct (cordex_bootstrap _ _ _ _ _) as [[X cr]|] eqn:Eb;
      cbn [Cordex.obind fst snd]; [|intro H; discriminate H].
    destruct (reshape X 1 (width c)) as [Xf|] eqn:E;
      cbn [Cordex.obind]; [|intro H; discriminate H].
    destruct (objective c Xf) as [y|] eqn:Ey; cbn [Cordex.obind];
      [|intro H; discriminate H].
    intro H; inversion H; subst; clear H. cbn.
    apply ArrayFacts.reshape_one_row in E. subst Xf. exists X, y.
    split; [exists J; split; [reflexivity | exact Eb]|]. auto.
  - destruct (gen_rand_design _ _) as [X|] eqn:Eg; cbn [Cordex.obind];
      [|intro H; discriminate H].
    destruct (reshape X 1 (width c)) as [Xf|] eqn:E; cbn [Cordex.obind];
      [|intro H; discriminate H].
    destruct (objective c Xf) as [y|] eqn:Ey; cbn [Cordex.obind];
      [|intro H; discriminate H].
    intro H; inversion H; subst; clear H. cbn.
    apply ArrayFacts.reshape_one_row in E. subst Xf. exists X, y. auto.
Qed.

(** X18.  For positive [runs] and [feats], a round that generates
    candidates and returns has taken a batch of exactly one candidate; it
    adds one row to [X_init] and one to [y_init]. *)
Theorem round_takes_one_candidate :
  forall epoch s s' cand,
    (0 < runs c)%Z -> (0 < feats c)%Z ->
    gen_next_point c epoch (X_init s) (y_init s) (best_y_init s) = Ret cand ->
    bo_round c epoch s = Ret s' ->
    length cand = 1 /\
    length (X_init s') = S (length (X_init s)) /\
    length (y_init s') = S (length (y_init s)).
Proof.
  intros epoch s s' cand Hr Hf Hg. unfold bo_round. rewrite Hg.
  destruct (objective_tensor c cand) as [v|e] eqn:Eo; cbn [Cordex.obind];
    [|intro H; discriminate H].
  unfold cat. destruct (forallb _ cand) eqn:Ec; cbn [Cordex.obind];
    [|intro H; discriminate H].
  destruct (amax _); cbn [Cordex.obind]; [|intro H; discriminate H].
  intro H; inversion H; subst; clear H. cbn.
  assert (Hlen : length cand = 1).
  { unfold objective_tensor, M_of_tensor in Eo.
    destruct (tensor_reshape cand (runs c) (feats c)) as [X'|] eqn:ER;
      [|discriminate Eo].
    apply ArrayFacts.reshape_in_size in ER; try lia. destruct ER as [Hn _].
    assert (Hrow : forall r, In r cand -> length r = Z.to_nat (width c)).
    { intros r Hin. rewrite forallb_forall in Ec. apply Nat.eqb_eq.
      apply Ec. exact Hin. }
    unfold flatten in Hn.
    rewrite (ArrayFacts.length_concat_rows _ Hrow) in Hn.
    unfold width in *. assert (0 < Z.to_nat (runs c * feats c)) by nia.
    nia. }
  rewrite !length_app, Hlen. simpl. lia.
Qed.

(** Rounds in which the generation of candidates raises record nothing. *)
Lemma rounds_that_all_fail :
  (forall epoch X y b, is_raise (gen_next_point c epoch X y b) = true) ->
  forall rounds s,
    exists s', bo_rounds c rounds s = Ret s' /\
               epochs_list s' = epochs_list s.
Proof.
  intros Hfail rounds; induction rounds as [|e rest IH]; intro s.
  - exists s. split; reflexivity.
  - cbn [bo_rounds].
    rewrite (BayesOptFacts.failing_round c e s (Hfail _ _ _ _)).
    cbn [Cordex.obind].
    destruct (IH {| X_init := drop_last (X_init s);
                    y_init := drop_last (y_init s);
                    best_y_init := best_y_init s;
                    epochs_list := epochs_list s |}) as [s' [H1 H2]].
    exists s'. split; [exact H1 | exact H2].
Qed.

(** X19.  An acquisition function other than 'EI', 'PI' and 'UCB' is never
    reported: [gen_next_point] raises in every round (the error of line 53,
    or that of the fit), the bare [except] of [bo_loop] absorbs it, and the
    caller gets the [IndexError] of the empty [epochs_list]. *)
Theorem invalid_acquisition_is_swallowed :
  forall s0,
    String.eqb (acq_f c) "EI" = false ->
    String.eqb (acq_f c) "PI" = false ->
    String.eqb (acq_f c) "UCB" = false ->
    initial_state c = Ret s0 ->
    (forall epoch X y b,
        gen_next_point c epoch X y b = Raise SurrogateError \/
        gen_next_point c epoch X y b = Raise (ValueError InvalidAcquisition)) /\
    bo_loop c = Raise IndexError.
Proof.
  intros s0 H1 H2 H3 H0.
  assert (Hg : forall epoch X y b,
             gen_next_point c epoch X y b = Raise SurrogateError \/
             gen_next_point c epoch X y b
               = Raise (ValueError InvalidAcquisition)).
  { intros. unfold gen_next_point.
    destruct (fit_gpytorch_model _ _ _); [|left; reflexivity].
    rewrite H1, H2, H3. right. reflexivity. }
  split; [exact Hg|].
  unfold bo_loop, bo_loop_state. rewrite H0. cbn [Cordex.obind].
  assert (Hr : forall epoch X y b,
             is_raise (gen_next_point c epoch X y b) = true)
    by (intros epoch X y b; destruct (Hg epoch X y b) as [E|E]; rewrite E;
        reflexivity).
  destruct (rounds_that_all_fail Hr (range (epochs c)) s0) as [s' [Hs He]].
  rewrite Hs. cbn [Cordex.obind].
  rewrite He, (BayesOptFacts.initial_state_has_no_epochs c H0).
  reflexivity.
Qed.

(** X20.  With no rounds to run ([epochs <= 0]) [bo_loop] raises
    [IndexError] after a successful initialisation: there is no candidate
    to select. *)
Theorem no_rounds_no_result :
  forall s0,
    (epochs c <= 0)%Z -> initial_state c = Ret s0 ->
    bo_loop c = Raise IndexError.
Proof.
  intros s0 He H0. unfold bo_loop, bo_loop_state. rewrite H0.
  cbn [Cordex.obind].
  unfold range. replace (Z.to_nat (epochs c)) with 0 by lia. cbn.
  rewrite (BayesOptFacts.initial_state_has_no_epochs c H0). reflexivity.
Qed.

(** ** The selection after the loop *)

Lemma argmax_from_member :
  forall l best, In (argmax_from best l) (best :: l).
Proof.
  induction l as [|e t IH]; intro best; simpl; [auto|].
  destruct (flt (snd (fst best)) (snd (fst e))).
  - destruct (IH e) as [H|H]; [right; left; exact H | right; right; exact H].
  - destruct (IH best) as [H|H]; [left; exact H | right; right; exact H].
Qed.

Lemma argmax_from_maximal :
  forall l best seen,
    (forall p, In p seen -> flt (snd (fst best)) (snd (fst p)) = false) ->
    forall p, In p (seen ++ best :: l) ->
              flt (snd (fst (argmax_from best l))) (snd (fst p)) = false.
Proof.
  induction l as [|e t IH]; intros best seen Hseen p Hp; simpl.
  - apply in_app_or in Hp.
    destruct Hp as [Hp|[<-|[]]];
      [apply Hseen; exact Hp | apply ArrayFacts.flt_irrefl].
  - destruct (flt (snd (fst best)) (snd (fst e))) eqn:E.
    + apply (IH e (seen ++ [best])).
      * intros q Hq. apply in_app_or in Hq. destruct Hq as [Hq|[<-|[]]].
        -- destruct (flt (snd (fst e)) (snd (fst q))) eqn:E2; [|reflexivity].
           rewrite <- (Hseen q Hq). symmetry.
           eapply ArrayFacts.flt_trans; eassumption.
        -- apply ArrayFacts.flt_asym. exact E.
      * rewrite <- app_assoc. exact Hp.
    + apply (IH best (seen ++ [e])).
      * intros q Hq. apply in_app_or in Hq.
        destruct Hq as [Hq|[<-|[]]]; [apply Hseen; exact Hq | exact E].
      * apply in_app_or in Hp. destruct Hp as [Hp|[<-|[<-|Hp]]].
        -- apply in_or_app. left. apply in_or_app. left. exact Hp.
        -- apply in_or_app. right. left. reflexivity.
        -- apply in_or_app. left. apply in_or_app. right. left. reflexivity.
        -- apply in_or_app. right. right. exact Hp.
Qed.

Lemma select_best_is_a_maximum :
  forall l best,
    select_best l = Ret best ->
    In best l /\
    forall p, In p l -> flt (snd (fst best)) (snd (fst p)) = false.
Proof.
  intros [|e t] best H; [discriminate|]. inversion H; subst; clear H. split.
  - apply argmax_from_member.
  - intros p Hp.
    apply (@argmax_from_maximal t e []); [intros q []|exact Hp].
Qed.

Lemma bo_round_records :
  forall epoch s s',
    (forall e, In e (epochs_list s) -> recorded_in_a_round c e) ->
    bo_round c epoch s = Ret s' ->
    forall e, In e (epochs_list s') -> recorded_in_a_round c e.
Proof.
  intros epoch s s' Hinv H.
  destruct (gen_next_point c epoch (X_init s) (y_init s) (best_y_init s))
    as [cand|er] eqn:Hg.
  - destruct (BayesOptFacts.successful_round c epoch s Hg H)
      as [v [Hv [_ [_ [He _]]]]].
    rewrite He. intros e Hin. apply in_app_or in Hin.
    destruct Hin as [Hin|[<-|[]]].
    + apply Hinv. exact Hin.
    + exists (X_init s), (y_init s), (best_y_init s), v. cbn. auto.
  - rewrite BayesOptFacts.failing_round in H by (rewrite Hg; reflexivity).
    inversion H; subst; clear H. cbn. exact Hinv.
Qed.

Lemma bo_rounds_record :
  forall rounds s s',
    (forall e, In e (epochs_list s) -> recorded_in_a_round c e) ->
    bo_rounds c rounds s = Ret s' ->
    forall e, In e (epochs_list s') -> recorded_in_a_round c e.
Proof.
  induction rounds as [|epoch rest IH]; intros s s' Hinv H.
  - inversion H; subst. exact Hinv.
  - cbn [bo_rounds] in H.
    destruct (bo_round c epoch s) as [s1|] eqn:E; cbn [Cordex.obind] in H;
      [|discriminate H].
    apply (IH s1 s'); [|exact H]. eapply bo_round_records; eassumption.
Qed.

(** X21.  Whatever [bo_loop] returns is a candidate that
    [gen_next_point] generated in one of the rounds, reshaped to
    [(runs, feats)], never the start design; its recorded value is the
    single-precision value of [objective] on it, no recorded value is
    greater, and the returned value is that value, negated unless the
    criterion is 'D' or 'I'. *)
Theorem bo_loop_returns_a_round_candidate :
  forall d v,
    bo_loop c = Ret (d, v) ->
    exists s epoch val cand,
      bo_loop_state c = Ret s /\
      In (epoch, val, cand) (epochs_list s) /\
      recorded_in_a_round c (epoch, val, cand) /\
      (forall p, In p (epochs_list s) -> flt val (snd (fst p)) = false) /\
      reshape cand (runs c) (feats c) = Ret d /\
      v = (if Cordex.mem_string (optimality c) ["D"; "I"]%string
           then val else fneg val).
Proof.
  intros d v. unfold bo_loop.
  destruct (bo_loop_state c) as [s|] eqn:Es; cbn [Cordex.obind];
    [|discriminate].
  destruct (select_best (epochs_list s)) as [[[epoch val] cand]|] eqn:Eb;
    cbn [Cordex.obind]; [|discriminate].
  cbn [fst snd].
  destruct (reshape cand (runs c) (feats c)) as [D|] eqn:Er;
    cbn [Cordex.obind]; [|discriminate].
  intro H; inversion H; subst; clear H.
  destruct (select_best_is_a_maximum _ Eb) as [Hin Hmax].
  exists s, epoch, val, cand. split; [reflexivity|]. split; [exact Hin|].
  split; [|split; [exact Hmax | split; [exact Er | reflexivity]]].
  unfold bo_loop_state in Es.
  destruct (initial_state c) as [s0|] eqn:E0; cbn [Cordex.obind] in Es;
    [|discriminate Es].
  eapply bo_rounds_record; [|exact Es|exact Hin].
  rewrite (BayesOptFacts.initial_state_has_no_epochs c E0). intros e [].
Qed.

End Loop.

(** ** The statements above on concrete inputs *)

Lemma flattened_design_is_evaluated_as_itself_witness :
  reshape [[one]; [fneg one]] 1 (BayesOpt.width (Inputs.bo_call 1 "D" 1))
    = Ret [flatten [[one]; [fneg one]]] /\
  reshape [flatten [[one]; [fneg one]]] 2 1 = Ret [[one]; [fneg one]].
Proof.
  destruct (@flattened_design_is_evaluated_as_itself
              (Inputs.bo_call 1 "D" 1) [[one]; [fneg one]]) as [H1 [H2 _]].
  - vm_compute. intro H. discriminate H.
  - vm_compute. intro H. discriminate H.
  - reflexivity.
  - intros row [<-|[<-|[]]]; reflexivity.
  - split; [exact H1 | exact H2].
Defined.

Lemma objective_refuses_wrong_size_witness :
  Z.of_nat (length (flatten [[one; one; one]])) <> (2 * 1)%Z /\
  @BayesOpt.objective Reference.linalg (Inputs.bo_call 1 "D" 1)
     [[one; one; one]] = Raise OperandError.
Proof.
  assert (H : Z.of_nat (length (flatten [[one; one; one]])) <> (2 * 1)%Z)
    by (vm_compute; intro E; discriminate E).
  split; [exact H|].
  apply (@objective_refuses_wrong_size Reference.linalg
           (Inputs.bo_call 1 "D" 1) [[one; one; one]]).
  - vm_compute. intro E. discriminate E.
  - vm_compute. intro E. discriminate E.
  - exact H.
Defined.

Lemma history_starts_with_one_observation_witness :
  @initial_state Reference.linalg Reference.initial_design
     (Inputs.bo_call 3 "D" 1) = Ret Inputs.first_observation /\
  exists X y,
    (@gen_rand_design Reference.initial_design 2 1 = Ret X /\
     best_y_init Inputs.first_observation = y) /\
    X_init Inputs.first_observation = [flatten X] /\
    y_init Inputs.first_observation = [y] /\
    @BayesOpt.objective Reference.linalg (Inputs.bo_call 3 "D" 1) [flatten X]
      = Ret y /\
    epochs_list Inputs.first_observation = [].
Proof.
  assert (H : @initial_state Reference.linalg Reference.initial_design
                (Inputs.bo_call 3 "D" 1) = Ret Inputs.first_observation)
    by (vm_compute; reflexivity).
  split; [exact H|].
  exact (@history_starts_with_one_observation Reference.linalg
           Reference.initial_design (Inputs.bo_call 3 "D" 1)
           Inputs.first_observation H).
Defined.

Lemma round_takes_one_candidate_witness :
  length [[one; one]] = 1 /\
  length [[one; fneg one]; [one; one]] = 2 /\
  length [of_Z 4; zero] = 2.
Proof.
  destruct (@round_takes_one_candidate Reference.linalg
              (Reference.constant_surrogate [[one; one]])
              (Inputs.bo_call 3 "D" 1) 0 Inputs.first_observation
              {| X_init := [[one; fneg one]; [one; one]];
                 y_init := [of_Z 4; zero]; best_y_init := of_Z 4;
                 epochs_list := [(0, zero, [[one; one]])] |}
              [[one; one]]) as [H1 [H2 H3]].
  - reflexivity.
  - reflexivity.
  - reflexivity.
  - vm_compute. reflexivity.
  - split; [exact H1|]. split; [exact H2 | exact H3].
Defined.

Lemma invalid_acquisition_is_swallowed_witness :
  @initial_state Reference.linalg Reference.initial_design
     MoreInputs.bad_acquisition = Ret Inputs.first_observation /\
  @gen_next_point (Reference.constant_surrogate [[one; one]])
     MoreInputs.bad_acquisition 0 [[one; fneg one]] [of_Z 4] (of_Z 4)
    = Raise (ValueError InvalidAcquisition) /\
  @BayesOpt.bo_loop Reference.linalg (Reference.constant_surrogate [[one; one]])
     Reference.initial_design MoreInputs.bad_acquisition = Raise IndexError.
Proof.
  assert (H : @initial_state Reference.linalg Reference.initial_design
                MoreInputs.bad_acquisition = Ret Inputs.first_observation)
    by (vm_compute; reflexivity).
  destruct (@invalid_acquisition_is_swallowed Reference.linalg
              (Reference.constant_surrogate [[one; one]])
              Reference.initial_design MoreInputs.bad_acquisition
              Inputs.first_observation eq_refl eq_refl eq_refl H)
    as [_ Hloop].
  split; [exact H|]. split; [vm_compute; reflexivity | exact Hloop].
Defined.

Lemma no_rounds_no_result_witness :
  @initial_state Reference.linalg Reference.initial_design
     (Inputs.bo_call 0 "D" 1) = Ret Inputs.first_observation /\
  @BayesOpt.bo_loop Reference.linalg (Reference.constant_surrogate [[one; one]])
     Reference.initial_design (Inputs.bo_call 0 "D" 1) = Raise IndexError.
Proof.
  assert (H : @initial_state Reference.linalg Reference.initial_design
                (Inputs.bo_call 0 "D" 1) = Ret Inputs.first_observation)
    by (vm_compute; reflexivity).
  split; [exact H|].
  apply (@no_rounds_no_result Reference.linalg
           (Reference.constant_surrogate [[one; one]])
           Reference.initial_design (Inputs.bo_call 0 "D" 1)
           Inputs.first_observation); [|exact H].
  vm_compute. intro E. discriminate E.
Defined.

Lemma bo_loop_returns_a_round_candidate_witness :
  Inputs.bo_loop (Reference.constant_surrogate [[one; one]])
                 (Inputs.bo_call 3 "D" 1)
    = Ret ([[one]; [one]], zero) /\
  exists s epoch val cand,
    @bo_loop_state Reference.linalg (Reference.constant_surrogate [[one; one]])
       Reference.initial_design (Inputs.bo_call 3 "D" 1) = Ret s /\
    In (epoch, val, cand) (epochs_list s) /\
    @recorded_in_a_round Reference.linalg
       (Reference.constant_surrogate [[one; one]]) (Inputs.bo_call 3 "D" 1)
       (epoch, val, cand) /\
    (forall p, In p (epochs_list s) -> flt val (snd (fst p)) = false) /\
    reshape cand 2 1 = Ret [[one]; [one]] /\
    zero = (if Cordex.mem_string "D" ["D"; "I"]%string then val else fneg val).
Proof.
  assert (H : Inputs.bo_loop (Reference.constant_surrogate [[one; one]])
                (Inputs.bo_call 3 "D" 1) = Ret ([[one]; [one]], zero))
    by (vm_compute; reflexivity).
  split; [exact H|].
  exact (@bo_loop_returns_a_round_candidate Reference.linalg
           (Reference.constant_surrogate [[one; one]])
           Reference.initial_design (Inputs.bo_call 3 "D" 1)
           [[one]; [one]] zero H).
Defined.

End BayesOptExtras.
